(** * PublicationCollector: a shallow embedding of src/publication-collector.js

    The collector is a JavaScript object that is mutated in place, and the
    documents it stores are JavaScript objects that are handed out by
    reference.  The embedding therefore keeps an explicit store of document
    objects ([heap]) and lets [_documents] and the responses hold addresses
    into it, so that sharing between the collector and a response it has
    produced is visible.

    Conventions of the embedding:
    - a JavaScript object used as a dictionary is a [gmap] over its own
      enumerable string keys; a property whose value is [undefined] is a
      key that is present and bound to [Vundefined];
    - [_] is Meteor's underscore: [_.extend], [_.omit], [_.forEach],
      [_.values] and [_.isEmpty] act on the own enumerable keys of a plain
      object; the order in which [_.values] lists them is not modelled
      (the lists are compared up to permutation);
    - collection names and document keys are assumed not to be names that
      a plain object inherits from [Object.prototype];
    - [throw] is a completion [Throw e st] that carries the state reached
      when the exception left the method. *)

From stdpp Require Import base option list gmap strings pretty.

Open Scope string_scope.

(** ** JavaScript values that appear as arguments and as field values *)

Inductive value :=
| Vundefined
| Vnull
| Vbool (b : bool)
| Vnum (n : Z)
| Vstr (s : string)
| VObjectID (hex : string)   (* a Mongo.ObjectID *)
| Vobject (ref : nat).       (* any other object, known by identity only *)

#[global] Instance value_eq_dec : EqDecision value.
Proof. solve_decision. Defined.

(** ToBoolean. *)
Definition truthy (v : value) : bool :=
  match v with
  | Vundefined | Vnull => false
  | Vbool b => b
  | Vnum n => negb (n =? 0)%Z
  | Vstr s => match s with EmptyString => false | _ => true end
  | VObjectID _ | Vobject _ => true
  end.

(** A document (or a [fields] payload): own enumerable keys to values. *)
Abbreviation object := (gmap string value).

(** ** The underscore functions the collector uses *)

Module Underscore.

(** [_.omit(obj, key)]: a copy of [obj] without [key]. *)
Definition omit (obj : object) (key : string) : object := delete key obj.

(** [_.extend(destination, source)]: every key of [source] is assigned
    on [destination], [undefined] values included. *)
Definition extend (destination source : object) : object :=
  source ∪ destination.

(** [_.isEmpty(obj)] on a plain object. *)
Definition isEmpty {A} (obj : gmap string A) : bool :=
  bool_decide (map_to_list obj = []).

(** [_.values(obj)]. *)
Definition values {A} (obj : gmap string A) : list A :=
  (map_to_list obj).*2.

End Underscore.

(** ** Argument checks and property keys *)

Inductive error :=
| MatchError                 (* thrown by [check] *)
| TypeError                  (* calling a method a value does not have *)
| Error (message : string).  (* [new Error(message)] *)

(** The pattern [String] of [check]. *)
Definition String_pattern (v : value) : bool :=
  match v with Vstr _ => true | _ => false end.

(** [Match.OneOf(String, Mongo.ObjectID)]. *)
Definition validMongoId (v : value) : bool :=
  match v with Vstr _ | VObjectID _ => true | _ => false end.

Definition dquote : string := String (Ascii.ascii_of_nat 34) EmptyString.

(** The property key of [obj[v]]: the string itself, and [toString()]
    otherwise ([ObjectID.prototype.toString] for an ObjectID). *)
Definition property_key (v : value) : string :=
  match v with
  | Vundefined => "undefined"
  | Vnull => "null"
  | Vbool b => if b then "true" else "false"
  | Vnum n => pretty n
  | Vstr s => s
  | VObjectID hex => "ObjectID(" ++ dquote ++ hex ++ dquote ++ ")"
  | Vobject _ => "[object Object]"
  end.

(** ** The collector *)

Abbreviation address := nat.

(** A response of [_generateResponse]: collection name to the array of
    the document objects (by reference). *)
Abbreviation response := (gmap string (list address)).

Record collector := Collector {
  heap : gmap address object;    (* the document objects *)
  _documents : gmap string (gmap string address);
  delayInMs : option Z;
  ready_listener : bool;         (* the [once('ready')] listener of [collect] is registered *)
  timer : bool;                  (* the [Meteor.setTimeout] callback is scheduled *)
  resolved : option response;    (* what the promise of [collect] was resolved with *)
  stopped : nat;                 (* how many times 'stop' was emitted *)
  published : list string        (* ghost: the cursors whose [_publishCursor] was called *)
}.

Definition set_heap (h : gmap address object) (st : collector) : collector :=
  Collector h (_documents st) (delayInMs st) (ready_listener st) (timer st)
            (resolved st) (stopped st) (published st).

Definition set_documents (d : gmap string (gmap string address)) (st : collector)
  : collector :=
  Collector (heap st) d (delayInMs st) (ready_listener st) (timer st)
            (resolved st) (stopped st) (published st).

(** The object built by [new PublicationCollector({delayInMs})]. *)
Definition new_collector (delay : option Z) : collector :=
  Collector ∅ ∅ delay false false None 0 [].

(** A method call either returns or throws; both leave a collector. *)
Inductive completion :=
| Normal (st : collector)
| Throw (e : error) (st : collector).

Definition and_then (c : completion) (k : collector → completion) : completion :=
  match c with
  | Normal st => k st
  | Throw e st => Throw e st
  end.

Definition state_of (c : completion) : collector :=
  match c with Normal st | Throw _ st => st end.

(** [check(v, pattern)] *)
Definition check (v : value) (pattern : value → bool) (st : collector)
  : completion :=
  if pattern v then Normal st else Throw MatchError st.

(** [new] for a document object: an address the store does not use yet. *)
Definition alloc (o : object) (st : collector) : address * collector :=
  let a := fresh (dom (heap st)) in
  (a, set_heap (<[a := o]> (heap st)) st).

(** [this._documents[collection] = this._documents[collection] || {}] *)
Definition _ensureCollectionInRes (collection : string) (st : collector)
  : collector :=
  set_documents
    (<[collection := default ∅ (_documents st !! collection)]> (_documents st)) st.

(** [this._documents[collection]] once the collection has been ensured. *)
Definition collection_of (collection : string) (st : collector)
  : gmap string address :=
  default ∅ (_documents st !! collection).

(** [added(collection, id, fields)] (lines 138-147). *)
Definition added (collection id : value) (fields : object) (st : collector)
  : completion :=
  and_then (check collection String_pattern st) (λ st,
  and_then (check id validMongoId st) (λ st,
    let c := property_key collection in
    let st := _ensureCollectionInRes c st in
    let addedDocument :=
      Underscore.extend {[ "_id" := id ]} (Underscore.omit fields "_id") in
    let '(a, st) := alloc addedDocument st in
    Normal (set_documents
              (<[c := <[property_key id := a]> (collection_of c st)]>
                 (_documents st)) st))).

(** The body of the [_.forEach(fields, ...)] loop of [changed]. *)
Definition delete_if_undefined (existingDocument : object)
    (entry : string * value) : object :=
  match entry.2 with
  | Vundefined => delete entry.1 existingDocument
  | _ => existingDocument
  end.

(** What [changed] does to the object [existingDocument] refers to:
    [_.extend(existingDocument, fieldsNoId)], then the loop over [fields]. *)
Definition change_document (fields existingDocument : object) : object :=
  let fieldsNoId := Underscore.omit fields "_id" in
  let existingDocument := Underscore.extend existingDocument fieldsNoId in
  foldl delete_if_undefined existingDocument (map_to_list fields).

(** [changed(collection, id, fields)] (lines 149-168). *)
Definition changed (collection id : value) (fields : object) (st : collector)
  : completion :=
  and_then (check collection String_pattern st) (λ st,
  and_then (check id validMongoId st) (λ st,
    let c := property_key collection in
    let st := _ensureCollectionInRes c st in
    match collection_of c st !! property_key id with
    | Some existingDocument =>
        Normal (set_heap
                  (alter (change_document fields) existingDocument (heap st)) st)
    | None => Normal st
    end)).

(** [removed(collection, id)] (lines 170-181). *)
Definition removed (collection id : value) (st : collector) : completion :=
  and_then (check collection String_pattern st) (λ st,
  and_then (check id validMongoId st) (λ st,
    let c := property_key collection in
    let st := _ensureCollectionInRes c st in
    let st :=
      set_documents
        (<[c := delete (property_key id) (collection_of c st)]> (_documents st))
        st in
    if Underscore.isEmpty (collection_of c st)
    then Normal (set_documents (delete c (_documents st)) st)
    else Normal st)).

(** [_generateResponse()] (lines 210-218): a new object with, for every
    collection, a new array of the stored document objects themselves. *)
Definition _generateResponse (st : collector) : response :=
  Underscore.values <$> _documents st.

(** ** Ready, the delay and the completion of [collect] *)

(** [this.stop()]: 'stop' is emitted. *)
Definition stop (st : collector) : collector :=
  Collector (heap st) (_documents st) (delayInMs st) (ready_listener st)
            (timer st) (resolved st) (S (stopped st)) (published st).

(** [done(collections)]: [resolve(collections)], and a promise keeps the
    first value it is given.  (The optional callback of the caller is
    outside the collector.) *)
Definition resolve (collections : response) (st : collector) : collector :=
  Collector (heap st) (_documents st) (delayInMs st) (ready_listener st)
            (timer st)
            (match resolved st with Some r => Some r | None => Some collections end)
            (stopped st) (published st).

(** [completeCollecting(collections)]: [done], then [this.stop()]. *)
Definition completeCollecting (collections : response) (st : collector)
  : collector :=
  stop (resolve collections st).

Definition set_listening (listener scheduled : bool) (st : collector)
  : collector :=
  Collector (heap st) (_documents st) (delayInMs st) listener scheduled
            (resolved st) (stopped st) (published st).

(** [if (this.delayInMs)] *)
Definition delay_configured (st : collector) : bool :=
  match delayInMs st with
  | Some d => negb (d =? 0)%Z
  | None => false
  end.

(** [this.once('ready', ...)] in [collect] (lines 64-75): the listener is
    [ready]'s second branch below, and its timer callback is [timer_fires]. *)
Definition once_ready (st : collector) : collector :=
  set_listening true (timer st) st.

(** [ready()]: [this.emit('ready', this._generateResponse())]; the
    listener of [collect], when it is still registered, is removed and run. *)
Definition ready (st : collector) : collector :=
  let collections := _generateResponse st in
  if ready_listener st then
    if delay_configured st
    then set_listening false true st
    else completeCollecting collections (set_listening false (timer st) st)
  else st.

(** The callback given to [Meteor.setTimeout], run when the delay expires. *)
Definition timer_fires (st : collector) : collector :=
  if timer st then
    let st := set_listening (ready_listener st) false st in
    let collections := _generateResponse st in
    completeCollecting collections st
  else st.

(** ** What a publish handler returns *)

(** A cursor: the two methods the collector calls on it.  What
    [_publishCursor(this)] does to the collector is left to the cursor. *)
Record cursor := Cursor {
  _getCollectionName : string;
  _publishCursor : collector → completion
}.

#[warnings="-register-all"]
Inductive handler_result :=
| HValue (v : value)                     (* a value without [_publishCursor] *)
| HCursor (cur : cursor)                 (* an object with a [_publishCursor] method *)
| HArray (elements : list handler_result).

(** [c && c._publishCursor], as a condition. *)
Definition _isCursor (c : handler_result) : bool :=
  match c with HCursor _ => true | _ => false end.

(** [Array.isArray(res)] *)
Definition isArray (res : handler_result) : bool :=
  match res with HArray _ => true | _ => false end.

(** [if (res)] *)
Definition truthy_result (res : handler_result) : bool :=
  match res with
  | HValue v => truthy v
  | HCursor _ | HArray _ => true
  end.

Definition non_cursors_message : string :=
  "PublicationCollector: Publish function returned an array of non-Cursors".

Definition multiple_cursors_message (collectionName : string) : string :=
  "PublicationCollector: Publish function returned multiple cursors for collection "
  ++ collectionName.

Definition not_a_cursor_message : string :=
  "PublicationCollector: Publish function can only return a Cursor or an array of Cursors".

(** [res.reduce((valid, cur) => valid && this._isCursor(cur), true)] *)
Definition areCursors (res : list handler_result) : bool :=
  foldl (λ valid cur, valid && _isCursor cur) true res.

(** The loop that looks for duplicate collection names (lines 101-112):
    it returns the error it throws, or the cursors it has pushed.  An
    element without [_getCollectionName] would make it fail with a
    TypeError; after the check of the elements there is none. *)
Fixpoint collect_cursors (collectionNames : gset string)
    (cursors : list cursor) (res : list handler_result)
  : error + list cursor :=
  match res with
  | [] => inr cursors
  | HCursor cur :: rest =>
      let collectionName := _getCollectionName cur in
      if decide (collectionName ∈ collectionNames)
      then inl (Error (multiple_cursors_message collectionName))
      else collect_cursors ({[collectionName]} ∪ collectionNames)
                           (cursors ++ [cur]) rest
  | _ :: _ => inl TypeError
  end.

(** Ghost: [_publishCursor] of the cursor for [collectionName] is called. *)
Definition note_published (collectionName : string) (st : collector)
  : collector :=
  Collector (heap st) (_documents st) (delayInMs st) (ready_listener st)
            (timer st) (resolved st) (stopped st)
            (published st ++ [collectionName]).

(** [cursors.forEach(...)] inside [try]; [catch (e) { this.error(e) }]
    throws [e] again. *)
Fixpoint publish_cursors (cursors : list cursor) (st : collector) : completion :=
  match cursors with
  | [] => Normal st
  | cur :: rest =>
      let st := _ensureCollectionInRes (_getCollectionName cur) st in
      and_then (_publishCursor cur (note_published (_getCollectionName cur) st))
               (publish_cursors rest)
  end.

(** The first part of [_publishHandlerResult] (lines 88-118): the cursors
    to publish, or the error handed to [this.error], which throws it. *)
Definition classify_result (res : handler_result) : error + list cursor :=
  match res with
  | HCursor cur => inr [cur]
  | HArray elements =>
      if negb (areCursors elements)
      then inl (Error non_cursors_message)
      else collect_cursors ∅ [] elements
  | HValue v =>
      if truthy v then inl (Error not_a_cursor_message) else inr []
  end.

(** [_publishHandlerResult(res)] (lines 87-136). *)
Definition _publishHandlerResult (res : handler_result) (st : collector)
  : completion :=
  match classify_result res with
  | inl e => Throw e st
  | inr cursors =>
      if (0 <? length cursors)%nat || isArray res
      then and_then (publish_cursors cursors st) (λ st, Normal (ready st))
      else Normal st
  end.

(** ** Calls and events on one collector *)

Inductive mutation :=
| Added (collection id : value) (fields : object)
| Changed (collection id : value) (fields : object)
| Removed (collection id : value).

Definition call (m : mutation) (st : collector) : completion :=
  match m with
  | Added collection id fields => added collection id fields st
  | Changed collection id fields => changed collection id fields st
  | Removed collection id => removed collection id st
  end.

(** A sequence of calls; an exception ends it. *)
Fixpoint calls (ms : list mutation) (st : collector) : completion :=
  match ms with
  | [] => Normal st
  | m :: ms => and_then (call m st) (calls ms)
  end.

(** The arguments pass the two [check]s. *)
Definition well_formed (m : mutation) : bool :=
  match m with
  | Added collection id _ | Changed collection id _ | Removed collection id =>
      String_pattern collection && validMongoId id
  end.

(** What happens to a collector after [collect] has called the handler:
    calls from the sources, [ready()], and the expiry of the delay. *)
Inductive event :=
| Call (m : mutation)
| Ready
| TimerFires.

Definition step (e : event) (st : collector) : completion :=
  match e with
  | Call m => call m st
  | Ready => Normal (ready st)
  | TimerFires => Normal (timer_fires st)
  end.

Fixpoint run (es : list event) (st : collector) : completion :=
  match es with
  | [] => Normal st
  | e :: es => and_then (step e st) (run es)
  end.

(** ** Reading a response *)

(** The fields of the object at [a], as a reader sees them in [st]. *)
Definition fields_at (st : collector) (a : address) : object :=
  default ∅ (heap st !! a).

(** The documents a response lists for a collection, read in [st]:
    [r[collection]], each element with the fields it has in [st]. *)
Definition read (st : collector) (r : response) (collection : string)
  : option (list object) :=
  match r !! collection with
  | Some documents => Some (map (fields_at st) documents)
  | None => None
  end.

(** The same with an absent collection read as no documents. *)
Definition documents_of (st : collector) (r : response) (collection : string)
  : list object :=
  default [] (read st r collection).

(** The address stored for a document: [this._documents[collection][key]]. *)
Definition slot (st : collector) (collection key : string) : option address :=
  match _documents st !! collection with
  | Some documents => documents !! key
  | None => None
  end.

(** ** Predicates of the statements *)

(** Presence implies non-emptiness. *)
Definition nonempty_collections (st : collector) : Prop :=
  ∀ c documents, _documents st !! c = Some documents → documents ≠ ∅.

(** Every stored address refers to an object of the store, and no object
    is stored at two places. *)
Definition store_ok (st : collector) : Prop :=
  (∀ c k a, slot st c k = Some a → is_Some (heap st !! a))
  ∧ (∀ c k c' k' a,
       slot st c k = Some a → slot st c' k' = Some a → c = c' ∧ k = k').

(** The document a call changes in place, if any. *)
Definition changed_in_place (m : mutation) (st : collector) : option address :=
  match m with
  | Changed c id _ => slot st (property_key c) (property_key id)
  | _ => None
  end.

(** Whether one of the calls changes the object at [a] in place. *)
Fixpoint changes_in_place (a : address) (ms : list mutation) (st : collector)
  : bool :=
  match ms with
  | [] => false
  | m :: ms =>
      bool_decide (changed_in_place m st = Some a)
      || changes_in_place a ms (state_of (call m st))
  end.


(** The document map of a collection, as the collector holds it. *)
Definition stored_documents (st : collector) (collection : string)
  : gmap string object :=
  fields_at st <$> collection_of collection st.

(** The payload of a [changed] does not bind [_id] to [undefined]. *)
Definition keeps_id (m : mutation) : bool :=
  match m with
  | Changed _ _ fields => bool_decide (fields !! "_id" ≠ Some Vundefined)
  | _ => true
  end.

(** ** The fold the specification compares the collector with

    These definitions follow the words of the specification (its sections
    4.1 and 8), not the code: a document map per collection, keyed by the
    property key of the id. *)

Module Fold.

(** Field-by-field merge of a [changed] payload into a stored document:
    the last value written wins, a field whose value is the absent
    sentinel is deleted, and the id key is never altered. *)
Definition merge_field (payload stored : option value) : option value :=
  match payload with
  | Some Vundefined => None
  | Some v => Some v
  | None => stored
  end.

Definition merge_fields (fields document : object) : object :=
  merge merge_field (delete "_id" fields) document.

(** One call, seen from the document map (id to fields) of [collection]. *)
Definition apply (collection : string) (documents : gmap string object)
    (m : mutation) : gmap string object :=
  match m with
  | Added c id fields =>
      if decide (property_key c = collection)
      then <[property_key id := <["_id" := id]> fields]> documents
      else documents
  | Changed c id fields =>
      if decide (property_key c = collection)
      then alter (merge_fields fields) (property_key id) documents
      else documents
  | Removed c id =>
      if decide (property_key c = collection)
      then delete (property_key id) documents
      else documents
  end.

(** The calls folded left to right over an empty document map. *)
Definition fold (collection : string) (ms : list mutation)
  : gmap string object :=
  foldl (apply collection) ∅ ms.

End Fold.

(** ** [collect]

    [collect(name, ...args)] (lines 34-81).  The publish handler is code of
    the application: it is called with the collector as [this] and the
    arguments, calls the collector's methods, and returns a value or
    throws. *)

(** An argument of [collect]: a value, or a function. *)
Inductive argument :=
| AValue (v : value)
| AFunction (f : nat).

(** [if (_.isFunction(args[args.length - 1])) callback = args.pop()]:
    the callback, and the arguments that are left. *)
Definition take_callback (args : list argument)
  : option nat * list argument :=
  match last args with
  | Some (AFunction f) => (Some f, removelast args)
  | _ => (None, args)
  end.

Inductive handler_completion :=
| HandlerReturns (result : handler_result) (st : collector)
| HandlerThrows (e : error) (st : collector).

Abbreviation publish_handler := (list argument → collector → handler_completion).

Definition unknown_publication_message (name : string) : string :=
  "PublicationCollector: Couldn't find publication " ++ dquote ++ name
  ++ dquote ++ "! Did you misspell it?".

(** The function given to [new Promise] (lines 47-80): the 'ready'
    listener is registered, the handler is called, and what it returned
    goes to [_publishHandlerResult]. *)
Definition executor (handler : publish_handler) (args : list argument)
    (st : collector) : completion :=
  match handler args (once_ready st) with
  | HandlerReturns result st => _publishHandlerResult result st
  | HandlerThrows e st => Throw e st
  end.

(** What [collect] gives its caller: an exception, or a promise, which is
    rejected with the exception that left the executor, if one did. *)
Inductive collect_completion :=
| CollectThrows (e : error) (st : collector)
| CollectReturns (callback : option nat) (rejection : option error)
                 (st : collector).

Definition collect (publish_handlers : gmap string publish_handler)
    (name : string) (args : list argument) (st : collector)
  : collect_completion :=
  let '(callback, args) := take_callback args in
  match publish_handlers !! name with
  | None => CollectThrows (Error (unknown_publication_message name)) st
  | Some handler =>
      match executor handler args st with
      | Normal st => CollectReturns callback None st
      | Throw e st => CollectReturns callback (Some e) st
      end
  end.

(** The state of the promise when [collect] returns: [resolve] and
    [reject] only act on a promise that is still pending. *)
Inductive promise :=
| Pending
| Fulfilled (collections : response)
| Rejected (e : error).

Definition promise_of (c : collect_completion) : option promise :=
  match c with
  | CollectThrows _ _ => None
  | CollectReturns _ rejection st =>
      Some match resolved st, rejection with
           | Some collections, _ => Fulfilled collections
           | None, Some e => Rejected e
           | None, None => Pending
           end
  end.

(** A handler that makes the given calls on the collector, one after the
    other, and then returns [result]; an exception of a call leaves it. *)
Definition scripted_handler (es : list event) (result : handler_result)
  : publish_handler :=
  λ _ st, match run es st with
          | Normal st => HandlerReturns result st
          | Throw e st => HandlerThrows e st
          end.

(** The collection a call is about. *)
Definition collection_name (m : mutation) : string :=
  match m with
  | Added c _ _ | Changed c _ _ | Removed c _ => property_key c
  end.



(** * Properties *)

(** ** Record bookkeeping *)

Lemma set_documents_same st : set_documents (_documents st) st = st.
Proof. by destruct st. Qed.

(** ** [changed] on one document *)

Lemma foldl_delete_if_undefined_lookup (l : list (string * value))
    (doc : object) (k : string) :
  foldl delete_if_undefined doc l !! k
  = if decide ((k, Vundefined) ∈ l) then None else doc !! k.
Proof.
  revert doc. induction l as [|[k' v] l IH]; intros doc; cbn [foldl].
  - destruct (decide _) as [H|H]; [by apply elem_of_nil in H | done].
  - rewrite IH. unfold delete_if_undefined; cbn [fst snd].
    destruct (decide ((k, Vundefined) ∈ l)) as [Hin|Hnin].
    + rewrite decide_True; [done | by right].
    + destruct (decide ((k, Vundefined) ∈ (k', v) :: l)) as [Hin'|Hnin'].
      * apply elem_of_cons in Hin' as [Heq|?]; [|done].
        injection Heq as <- <-. by rewrite lookup_delete_eq.
      * destruct v; try done.
        rewrite lookup_delete_ne; [done|].
        intros ->. apply Hnin'. by left.
Qed.

(** The stored document after [changed], key by key. *)
Lemma change_document_lookup (fields doc : object) (k : string) :
  change_document fields doc !! k
  = match fields !! k with
    | Some Vundefined => None
    | Some v => if decide (k = "_id") then doc !! k else Some v
    | None => doc !! k
    end.
Proof.
  unfold change_document, Underscore.extend, Underscore.omit.
  rewrite foldl_delete_if_undefined_lookup.
  destruct (decide ((k, Vundefined) ∈ map_to_list fields)) as [Hin|Hnin].
  - apply elem_of_map_to_list in Hin. by rewrite Hin.
  - assert (fields !! k ≠ Some Vundefined) as Hne
      by (intros H; by apply Hnin, elem_of_map_to_list).
    rewrite lookup_union.
    destruct (decide (k = "_id")) as [->|Hk].
    + rewrite lookup_delete_eq, (left_id None _).
      destruct (fields !! "_id") as [[]|]; done.
    + rewrite lookup_delete_ne by done.
      destruct (fields !! k) as [v|] eqn:E; simpl.
      * destruct (doc !! k); simpl; destruct v; done.
      * by rewrite (left_id None _).
Qed.

(** The code's merge is the specified merge unless the payload binds
    [_id] to [undefined]. *)
Lemma change_document_merge_fields (fields doc : object) :
  fields !! "_id" ≠ Some Vundefined →
  change_document fields doc = Fold.merge_fields fields doc.
Proof.
  intros Hid. apply map_eq; intros k.
  rewrite change_document_lookup. unfold Fold.merge_fields.
  rewrite lookup_merge.
  destruct (decide (k = "_id")) as [->|Hk].
  - rewrite lookup_delete_eq.
    destruct (fields !! "_id") as [[]|], (doc !! "_id"); done.
  - rewrite lookup_delete_ne by done.
    destruct (fields !! k) as [[]|], (doc !! k); done.
Qed.

(** ** What one call does to the collector *)

Lemma isEmpty_spec {A} (obj : gmap string A) :
  Underscore.isEmpty obj = bool_decide (obj = ∅).
Proof.
  unfold Underscore.isEmpty. apply bool_decide_ext.
  apply map_to_list_empty_iff.
Qed.

Lemma collection_of_ensure c st :
  collection_of c (_ensureCollectionInRes c st) = collection_of c st.
Proof. unfold collection_of; simpl. by rewrite lookup_insert_eq. Qed.

Lemma collection_of_insert c x d st :
  collection_of c (set_documents (<[c := x]> d) st) = x.
Proof. unfold collection_of; simpl. by rewrite lookup_insert_eq. Qed.

Lemma slot_ensure c st c' k :
  slot (_ensureCollectionInRes c st) c' k = slot st c' k.
Proof.
  unfold slot; simpl. destruct (decide (c = c')) as [->|Hc].
  - rewrite lookup_insert_eq. by destruct (_documents st !! c').
  - by rewrite lookup_insert_ne.
Qed.

Lemma slot_collection_of st c k : collection_of c st !! k = slot st c k.
Proof. unfold slot, collection_of. by destruct (_documents st !! c). Qed.

(** [added] with arguments that pass the checks. *)
Lemma added_returns c id fields st :
  validMongoId id = true →
  added (Vstr c) id fields st
  = Normal (set_documents
              (<[c := <[property_key id := fresh (dom (heap st))]>
                        (collection_of c st)]> (_documents st))
              (set_heap
                 (<[fresh (dom (heap st)) :=
                      Underscore.extend {[ "_id" := id ]}
                                        (Underscore.omit fields "_id")]> (heap st))
                 st)).
Proof.
  intros Hid. unfold added, check. rewrite Hid. simpl.
  f_equal. unfold set_documents, set_heap, collection_of; simpl.
  by rewrite lookup_insert_eq, insert_insert_eq.
Qed.

(** [changed] with arguments that pass the checks. *)
Lemma changed_returns c id fields st :
  validMongoId id = true →
  changed (Vstr c) id fields st
  = Normal (match slot st c (property_key id) with
            | Some existingDocument =>
                set_heap (alter (change_document fields) existingDocument (heap st))
                         (_ensureCollectionInRes c st)
            | None => _ensureCollectionInRes c st
            end).
Proof.
  intros Hid. unfold changed, check. rewrite Hid. simpl.
  rewrite collection_of_ensure, slot_collection_of.
  by destruct (slot st c (property_key id)).
Qed.

(** [removed] with arguments that pass the checks. *)
Lemma removed_returns c id st :
  validMongoId id = true →
  removed (Vstr c) id st
  = Normal (set_documents
              (if bool_decide (delete (property_key id) (collection_of c st) = ∅)
               then delete c (_documents st)
               else <[c := delete (property_key id) (collection_of c st)]>
                      (_documents st))
              st).
Proof.
  intros Hid. unfold removed, check. rewrite Hid.
  cbn [String_pattern and_then property_key].
  rewrite isEmpty_spec, collection_of_insert, collection_of_ensure.
  destruct (decide (delete (property_key id) (collection_of c st) = ∅)).
  - rewrite !bool_decide_eq_true_2 by done.
    f_equal; unfold set_documents; simpl. by rewrite !delete_insert_eq.
  - rewrite !bool_decide_eq_false_2 by done.
    f_equal; unfold set_documents; simpl. by rewrite !insert_insert_eq.
Qed.

(** Calls whose arguments pass the checks return. *)
Lemma call_returns m st :
  well_formed m = true → ∃ st', call m st = Normal st'.
Proof.
  destruct m as [c id f|c id f|c id]; simpl; intros [Hc Hid]%andb_prop;
    destruct c; try done.
  - rewrite added_returns by done. eauto.
  - rewrite changed_returns by done. eauto.
  - rewrite removed_returns by done. eauto.
Qed.

Lemma calls_returns ms st :
  forallb well_formed ms = true → ∃ st', calls ms st = Normal st'.
Proof.
  revert st. induction ms as [|m ms IH]; intros st; simpl; [eauto|].
  intros [Hm Hms]%andb_prop.
  destruct (call_returns m st Hm) as [st1 ->]. simpl. by apply IH.
Qed.

(** A call that throws has changed nothing. *)
Lemma call_throws m e st st' : call m st = Throw e st' → st' = st.
Proof.
  destruct m as [c id f|c id f|c id]; simpl;
    unfold added, changed, removed, check;
    destruct (String_pattern c); simpl; try (by intros [= _ <-]);
    destruct (validMongoId id); simpl; try (by intros [= _ <-]).
  - by destruct (_ !! _).
  - by destruct (Underscore.isEmpty _).
Qed.

Lemma generateResponse_lookup_None st c :
  _generateResponse st !! c = None ↔ _documents st !! c = None.
Proof. unfold _generateResponse. rewrite lookup_fmap. apply fmap_None. Qed.

Lemma ensure_present c documents st :
  _documents st !! c = Some documents → _ensureCollectionInRes c st = st.
Proof.
  intros H. unfold _ensureCollectionInRes. rewrite H; simpl.
  rewrite insert_id by done. apply set_documents_same.
Qed.

Lemma slot_None_delete st c k :
  slot st c k = None → delete k (collection_of c st) = collection_of c st.
Proof. intros H. apply delete_id. by rewrite slot_collection_of. Qed.

(** ** Collections that are present but empty *)

Lemma new_collector_nonempty_collections delay :
  nonempty_collections (new_collector delay).
Proof. intros c documents. simpl. by rewrite lookup_empty. Qed.

Lemma added_nonempty_collections c id fields st st' :
  nonempty_collections st →
  added c id fields st = Normal st' → nonempty_collections st'.
Proof.
  intros Hinv. destruct c as [| | | |c| |]; try done.
  destruct (validMongoId id) eqn:Hid;
    [|by unfold added, check; simpl; rewrite Hid].
  rewrite added_returns by done. intros [= <-] c' documents; simpl.
  destruct (decide (c = c')) as [->|Hc].
  - rewrite lookup_insert_eq. intros [= <-]. apply insert_non_empty.
  - rewrite lookup_insert_ne by done. apply Hinv.
Qed.

Lemma removed_nonempty_collections c id st st' :
  nonempty_collections st →
  removed c id st = Normal st' → nonempty_collections st'.
Proof.
  intros Hinv. destruct c as [| | | |c| |]; try done.
  destruct (validMongoId id) eqn:Hid;
    [|by unfold removed, check; simpl; rewrite Hid].
  rewrite removed_returns by done. intros [= <-] c' documents; simpl.
  case_bool_decide as Hempty.
  - destruct (decide (c = c')) as [->|Hc].
    + by rewrite lookup_delete_eq.
    + rewrite lookup_delete_ne by done. apply Hinv.
  - destruct (decide (c = c')) as [->|Hc].
    + rewrite lookup_insert_eq. by intros [= <-].
    + rewrite lookup_insert_ne by done. apply Hinv.
Qed.

(** [changed] keeps the property when the collection is already there. *)
Lemma changed_nonempty_collections c id fields st st' :
  nonempty_collections st →
  is_Some (_documents st !! property_key c) →
  changed c id fields st = Normal st' → nonempty_collections st'.
Proof.
  intros Hinv [documents Hc]. destruct c as [| | | |c| |]; try done.
  destruct (validMongoId id) eqn:Hid;
    [|by unfold changed, check; simpl; rewrite Hid].
  rewrite changed_returns by done. simpl in Hc.
  rewrite (ensure_present _ _ _ Hc).
  destruct (slot st c (property_key id)); by intros [= <-].
Qed.

(** ** [changed] where no document is stored *)

Lemma changed_absent_document c id fields st :
  validMongoId id = true →
  slot st c (property_key id) = None →
  changed (Vstr c) id fields st = Normal (_ensureCollectionInRes c st).
Proof. intros Hid Hslot. rewrite changed_returns by done. by rewrite Hslot. Qed.

(** It changes nothing at all when the collection is present. *)
Lemma changed_absent_document_present_collection c id fields st :
  validMongoId id = true →
  is_Some (_documents st !! c) →
  slot st c (property_key id) = None →
  changed (Vstr c) id fields st = Normal st.
Proof.
  intros Hid [documents Hc] Hslot.
  rewrite changed_absent_document by done. by rewrite (ensure_present _ _ _ Hc).
Qed.

(** When the collection is absent, the response gains it, empty. *)
Lemma changed_absent_collection c id fields st :
  validMongoId id = true →
  _documents st !! c = None →
  ∃ st', changed (Vstr c) id fields st = Normal st'
         ∧ _generateResponse st !! c = None
         ∧ _generateResponse st' !! c = Some [].
Proof.
  intros Hid Hc. eexists. split; [|split].
  - apply changed_absent_document; [done|]. unfold slot. by rewrite Hc.
  - by apply generateResponse_lookup_None.
  - unfold _generateResponse; simpl.
    by rewrite lookup_fmap, lookup_insert_eq, Hc.
Qed.

(** C2: [changed] for an id with no stored document, on a collector that
    does not have the collection yet.  The call returns, but the collection
    that [_ensureCollectionInRes] created stays behind: the response had no
    [widgets] key before the call and lists [widgets] with no documents
    after it.  ([removed] deletes such a collection again, see
    [removed_returns]; [changed] does not.) *)
Theorem changed_on_absent_collection_adds_key :
  let st := new_collector None in
  slot st "widgets" "1" = None
  ∧ ∃ st', changed (Vstr "widgets") (Vstr "1") {[ "color" := Vstr "red" ]} st
           = Normal st'
           ∧ _generateResponse st !! "widgets" = None
           ∧ _generateResponse st' !! "widgets" = Some []
           ∧ _generateResponse st' ≠ _generateResponse st.
Proof.
  simpl. split; [done|].
  destruct (changed_absent_collection "widgets" (Vstr "1")
              {[ "color" := Vstr "red" ]} (new_collector None))
    as (st' & Hcall & Hbefore & Hafter); [done..|].
  exists st'. repeat split; try done.
  intros Heq. rewrite Heq, Hbefore in Hafter. done.
Qed.

(** C3: the same call breaks "presence implies non-emptiness": the new
    collector has the property, and after [changed] on a collection it
    does not have, the collection is present with no documents. *)
Theorem changed_breaks_nonempty_collections :
  let st := new_collector None in
  nonempty_collections st
  ∧ ∃ st', changed (Vstr "widgets") (Vstr "1") {[ "color" := Vstr "red" ]} st
           = Normal st'
           ∧ _documents st' !! "widgets" = Some ∅
           ∧ ¬ nonempty_collections st'.
Proof.
  simpl. split; [apply new_collector_nonempty_collections|].
  eexists. split; [by apply changed_absent_document|].
  assert (_documents (_ensureCollectionInRes "widgets" (new_collector None))
            !! "widgets" = Some ∅) as H by done.
  split; [done|]. intros Hinv. by apply (Hinv _ _ H).
Qed.

(** ** Removing documents *)

Lemma removed_only_document c id a st :
  validMongoId id = true →
  _documents st !! c = Some {[ property_key id := a ]} →
  ∃ st', removed (Vstr c) id st = Normal st'
         ∧ _generateResponse st' !! c = None.
Proof.
  intros Hid Hc. rewrite removed_returns by done. eexists; split; [done|].
  apply generateResponse_lookup_None; simpl.
  unfold collection_of. rewrite Hc; simpl.
  rewrite delete_singleton_eq, bool_decide_eq_true_2 by done.
  apply lookup_delete_eq.
Qed.

Lemma added_to_absent_collection c id fields st :
  validMongoId id = true →
  _documents st !! c = None →
  ∃ st', added (Vstr c) id fields st = Normal st'
         ∧ _documents st' !! c
           = Some {[ property_key id := fresh (dom (heap st)) ]}.
Proof.
  intros Hid Hc. rewrite added_returns by done. eexists; split; [done|].
  simpl. rewrite lookup_insert_eq. unfold collection_of. rewrite Hc. done.
Qed.

(** C6: removing the only document of a collection removes the collection
    from the response: from any state in which the collection holds
    exactly the document at [id], [removed] returns and the response has
    no key for the collection; in particular this is so after [added] on
    a state without the collection. *)
Theorem removing_only_document_removes_collection
    (c : string) (id : value) (fields : object) (st : collector) :
  validMongoId id = true →
  (∀ a, _documents st !! c = Some {[ property_key id := a ]} →
     ∃ st', removed (Vstr c) id st = Normal st'
            ∧ _generateResponse st' !! c = None)
  ∧ (_documents st !! c = None →
     ∃ st1 st2 a, added (Vstr c) id fields st = Normal st1
            ∧ _documents st1 !! c = Some {[ property_key id := a ]}
            ∧ removed (Vstr c) id st1 = Normal st2
            ∧ _generateResponse st2 !! c = None).
Proof.
  intros Hid. split.
  - intros a. by apply removed_only_document.
  - intros Hc.
    destruct (added_to_absent_collection c id fields st Hid Hc)
      as (st1 & Hadd & Hc1).
    destruct (removed_only_document c id _ st1 Hid Hc1) as (st2 & Hrem & Hres).
    by exists st1, st2, (fresh (dom (heap st))).
Qed.

Lemma removing_only_document_removes_collection_witness :
  ∃ st1 st2 a,
    added (Vstr "widgets") (Vstr "1") {[ "color" := Vstr "red" ]}
          (new_collector None) = Normal st1
    ∧ _documents st1 !! "widgets" = Some {[ "1" := a ]}
    ∧ removed (Vstr "widgets") (Vstr "1") st1 = Normal st2
    ∧ _generateResponse st2 !! "widgets" = None.
Proof.
  apply (removing_only_document_removes_collection
           "widgets" (Vstr "1") {[ "color" := Vstr "red" ]} (new_collector None));
    reflexivity.
Defined.

(** C10 as stated fails when the collection is present and empty, as it
    is after a cursor that published nothing: no document is stored at
    the id, and [removed] deletes the collection. *)
Lemma removed_deletes_empty_collection :
  let st := state_of (_publishHandlerResult
                        (HCursor (Cursor "widgets" Normal)) (new_collector None)) in
  _documents st !! "widgets" = Some ∅
  ∧ slot st "widgets" "1" = None
  ∧ ∃ st', removed (Vstr "widgets") (Vstr "1") st = Normal st'
           ∧ _documents st' !! "widgets" = None
           ∧ _documents st' ≠ _documents st.
Proof.
  intros st. split; [done|]. split; [done|].
  exists (state_of (removed (Vstr "widgets") (Vstr "1") st)).
  assert (_documents (state_of (removed (Vstr "widgets") (Vstr "1") st))
            !! "widgets" = None) as H by (by vm_compute).
  split; [by vm_compute|]. split; [done|].
  intros Heq. by rewrite Heq in H.
Qed.

(** C10, amended: when the collection is absent, or present and not empty
    but without a document at [id], [removed] returns and leaves the
    collector as it was. *)
Theorem removed_absent_document_is_noop (c : string) (id : value)
    (st : collector) :
  validMongoId id = true →
  slot st c (property_key id) = None →
  _documents st !! c ≠ Some ∅ →
  removed (Vstr c) id st = Normal st.
Proof.
  intros Hid Hslot Hne. rewrite removed_returns by done. f_equal.
  rewrite slot_None_delete by done. unfold collection_of.
  destruct (_documents st !! c) as [documents|] eqn:Hc; simpl.
  - rewrite bool_decide_eq_false_2 by congruence.
    rewrite insert_id by done. apply set_documents_same.
  - rewrite bool_decide_eq_true_2 by done.
    rewrite delete_id by done. apply set_documents_same.
Qed.

Lemma removed_absent_document_is_noop_witness :
  removed (Vstr "widgets") (Vstr "1") (new_collector None)
  = Normal (new_collector None).
Proof.
  apply (removed_absent_document_is_noop "widgets" (Vstr "1") (new_collector None));
    [reflexivity | reflexivity | simpl; rewrite lookup_empty; discriminate].
Defined.

(** ** The effect of a call on the slots and on the store *)

Lemma slot_insert (d : gmap string (gmap string address)) c documents st c' k :
  slot (set_documents (<[c := documents]> d) st) c' k
  = if decide (c' = c) then documents !! k else slot (set_documents d st) c' k.
Proof.
  unfold slot; simpl. destruct (decide (c' = c)) as [->|Hc].
  - by rewrite lookup_insert_eq.
  - by rewrite lookup_insert_ne.
Qed.

Lemma slot_added c id fields st c' k :
  validMongoId id = true →
  slot (state_of (added (Vstr c) id fields st)) c' k
  = if decide (c' = c ∧ k = property_key id)
    then Some (fresh (dom (heap st)))
    else slot st c' k.
Proof.
  intros Hid. rewrite added_returns by done. simpl.
  rewrite slot_insert. destruct (decide (c' = c)) as [->|Hc].
  - destruct (decide (k = property_key id)) as [->|Hk].
    + rewrite lookup_insert_eq, decide_True; done.
    + rewrite lookup_insert_ne, decide_False by (first [intros [? ?]; congruence | congruence]).
      apply slot_collection_of.
  - rewrite decide_False by (first [intros [? ?]; congruence | congruence]). done.
Qed.

Lemma slot_changed c id fields st c' k :
  slot (state_of (changed c id fields st)) c' k = slot st c' k.
Proof.
  unfold changed, check.
  destruct (String_pattern c); [|done].
  destruct (validMongoId id); [|done]. simpl.
  destruct (_ !! _); simpl; apply slot_ensure.
Qed.

Lemma slot_removed c id st c' k :
  validMongoId id = true →
  slot (state_of (removed (Vstr c) id st)) c' k
  = if decide (c' = c ∧ k = property_key id) then None else slot st c' k.
Proof.
  intros Hid. rewrite removed_returns by done. simpl.
  case_bool_decide as Hempty.
  - unfold slot at 1; simpl. destruct (decide (c' = c)) as [->|Hc].
    + rewrite lookup_delete_eq.
      destruct (decide (k = property_key id)) as [->|Hk].
      * by rewrite decide_True.
      * rewrite decide_False by (first [intros [? ?]; congruence | congruence]).
        rewrite <- slot_collection_of.
        rewrite <- (lookup_delete_ne (collection_of c st) (property_key id) k)
          by done.
        by rewrite Hempty, lookup_empty.
    + rewrite lookup_delete_ne, decide_False by (first [intros [? ?]; congruence | congruence]). done.
  - rewrite slot_insert. destruct (decide (c' = c)) as [->|Hc].
    + destruct (decide (k = property_key id)) as [->|Hk].
      * by rewrite lookup_delete_eq, decide_True.
      * rewrite lookup_delete_ne, decide_False by (first [intros [? ?]; congruence | congruence]).
        apply slot_collection_of.
    + rewrite decide_False by (first [intros [? ?]; congruence | congruence]). by rewrite set_documents_same.
Qed.

Lemma heap_added c id fields st :
  validMongoId id = true →
  heap (state_of (added (Vstr c) id fields st))
  = <[fresh (dom (heap st)) := <["_id" := id]> fields]> (heap st).
Proof.
  intros Hid. rewrite added_returns by done. simpl. f_equal.
  unfold Underscore.extend, Underscore.omit. apply map_eq; intros k.
  rewrite lookup_union. destruct (decide (k = "_id")) as [->|Hk].
  - by rewrite lookup_delete_eq, lookup_insert_eq, lookup_singleton_eq.
  - rewrite lookup_delete_ne, lookup_insert_ne, lookup_singleton_ne by done.
    by destruct (fields !! k).
Qed.

Lemma heap_changed c id fields st :
  validMongoId id = true →
  heap (state_of (changed (Vstr c) id fields st))
  = match slot st c (property_key id) with
    | Some a => alter (change_document fields) a (heap st)
    | None => heap st
    end.
Proof.
  intros Hid. rewrite changed_returns by done.
  by destruct (slot st c (property_key id)).
Qed.

Lemma heap_removed c id st :
  heap (state_of (removed c id st)) = heap st.
Proof.
  unfold removed, check.
  destruct (String_pattern c); [|done].
  destruct (validMongoId id); [|done]. simpl.
  by destruct (Underscore.isEmpty _).
Qed.

(** ** The store invariant *)

Lemma new_collector_store_ok delay : store_ok (new_collector delay).
Proof. split; intros c k; unfold slot; simpl; by rewrite lookup_empty. Qed.

Lemma fresh_not_stored st c k :
  store_ok st → slot st c k ≠ Some (fresh (dom (heap st))).
Proof.
  intros [Hdom _] Hslot. apply Hdom, elem_of_dom in Hslot.
  by apply is_fresh in Hslot.
Qed.

Lemma call_store_ok m st :
  store_ok st → store_ok (state_of (call m st)).
Proof.
  intros Hok. destruct (well_formed m) eqn:Hwf.
  2:{ destruct (call m st) as [st'|e st'] eqn:Hcall; simpl.
      - destruct m as [c id f|c id f|c id]; simpl in *;
          unfold added, changed, removed, check in Hcall;
          destruct (String_pattern c); simpl in *; try done;
          destruct (validMongoId id); simpl in *; done.
      - by rewrite (call_throws _ _ _ _ Hcall). }
  destruct Hok as [Hdom Hinj].
  destruct m as [c id f|c id f|c id]; simpl in *;
    apply andb_prop in Hwf as [Hc Hid]; destruct c as [| | | |c| |]; try done.
  - split.
    + intros c' k a. rewrite slot_added, heap_added by done.
      case_decide.
      * intros [= <-]. by rewrite lookup_insert_eq.
      * intros Hs. rewrite lookup_insert_ne; [by eapply Hdom|].
        intros <-. by eapply (fresh_not_stored st).
    + intros c1 k1 c2 k2 a. rewrite !slot_added by done.
      repeat case_decide; intros H1 H2; simplify_eq.
      * intuition congruence.
      * by eapply (fresh_not_stored st) in H2.
      * by eapply (fresh_not_stored st) in H1.
      * by eapply Hinj.
  - split.
    + intros c' k a. rewrite slot_changed, heap_changed by done.
      intros Hs%Hdom. destruct (slot st c (property_key id)); [|done].
      by apply lookup_alter_is_Some.
    + intros c1 k1 c2 k2 a. rewrite !slot_changed. apply Hinj.
  - split.
    + intros c' k a. rewrite slot_removed, heap_removed by done.
      case_decide; [done|]. apply Hdom.
    + intros c1 k1 c2 k2 a. rewrite !slot_removed by done.
      repeat case_decide; try done. apply Hinj.
Qed.

Lemma calls_store_ok ms st :
  store_ok st → store_ok (state_of (calls ms st)).
Proof.
  revert st. induction ms as [|m ms IH]; intros st Hok; simpl; [done|].
  pose proof (call_store_ok m st Hok) as Hok'.
  destruct (call m st) as [st1|e st1]; simpl in *; [by apply IH | done].
Qed.

(** ** The stored [_id] *)

(** [added] stores the id argument as [_id], whatever [fields] says,
    and the other fields as given. *)
Lemma added_stores_id c id fields st :
  validMongoId id = true →
  ∃ st' a, added (Vstr c) id fields st = Normal st'
           ∧ slot st' c (property_key id) = Some a
           ∧ fields_at st' a !! "_id" = Some id
           ∧ ∀ k, k ≠ "_id" → fields_at st' a !! k = fields !! k.
Proof.
  intros Hid.
  pose proof (slot_added c id fields st c (property_key id) Hid) as Hslot.
  pose proof (heap_added c id fields st Hid) as Hheap.
  rewrite added_returns in * by done. simpl state_of in *.
  eexists _, (fresh (dom (heap st))). split; [done|].
  rewrite decide_True in Hslot by done. split; [done|].
  unfold fields_at. rewrite Hheap, lookup_insert_eq; simpl.
  split; [by rewrite lookup_insert_eq|].
  intros k Hk. by rewrite lookup_insert_ne.
Qed.

(** [changed] leaves [_id] alone unless the payload binds it to [undefined]. *)
Lemma change_document_keeps_id fields doc :
  fields !! "_id" ≠ Some Vundefined →
  change_document fields doc !! "_id" = doc !! "_id".
Proof.
  intros H. rewrite change_document_lookup.
  destruct (fields !! "_id") as [[]|]; done.
Qed.

Lemma change_document_undefined_id fields doc :
  fields !! "_id" = Some Vundefined →
  change_document fields doc !! "_id" = None.
Proof. intros H. by rewrite change_document_lookup, H. Qed.

(** C4: the loop of [changed] that deletes the fields given as [undefined]
    runs over [fields], not over [fieldsNoId]: a payload that binds [_id]
    to [undefined] deletes the stored [_id].  After
    [added('widgets', '1', {color: 'red'})] the document carries
    [_id = '1']; after [changed('widgets', '1', {_id: undefined})] it has
    no [_id]. *)
Theorem changed_undefined_id_deletes_stored_id :
  ∃ st1 st2 a,
    added (Vstr "widgets") (Vstr "1") {[ "color" := Vstr "red" ]}
          (new_collector None) = Normal st1
    ∧ slot st1 "widgets" "1" = Some a
    ∧ fields_at st1 a !! "_id" = Some (Vstr "1")
    ∧ changed (Vstr "widgets") (Vstr "1") {[ "_id" := Vundefined ]} st1
      = Normal st2
    ∧ slot st2 "widgets" "1" = Some a
    ∧ fields_at st2 a !! "_id" = None
    ∧ fields_at st2 a = {[ "color" := Vstr "red" ]}.
Proof.
  eexists _, _, 0. split; [by vm_compute|].
  split; [by vm_compute|]. split; [by vm_compute|].
  split; [by vm_compute|]. split; [by vm_compute|].
  split; by vm_compute.
Qed.

(** ** Responses share the documents *)

Lemma elem_of_values {A} (m : gmap string A) (x : A) :
  x ∈ Underscore.values m ↔ ∃ k, m !! k = Some x.
Proof.
  unfold Underscore.values. rewrite list_elem_of_fmap. split.
  - intros ([k y] & -> & Hin). exists k. by apply elem_of_map_to_list.
  - intros [k Hk]. exists (k, x). split; [done|]. by apply elem_of_map_to_list.
Qed.

Lemma generateResponse_elem st c documents a :
  _generateResponse st !! c = Some documents → a ∈ documents →
  ∃ k, slot st c k = Some a.
Proof.
  unfold _generateResponse, slot. rewrite lookup_fmap.
  destruct (_documents st !! c) as [d|]; simpl; [|done].
  intros [= <-]. apply elem_of_values.
Qed.

Lemma call_ill_formed m st :
  well_formed m = false → state_of (call m st) = st.
Proof.
  destruct m as [c id f|c id f|c id]; simpl;
    unfold added, changed, removed, check;
    destruct (String_pattern c); simpl; try done;
    destruct (validMongoId id); simpl; done.
Qed.

Lemma call_heap_frame m st a :
  is_Some (heap st !! a) →
  changed_in_place m st ≠ Some a →
  heap (state_of (call m st)) !! a = heap st !! a.
Proof.
  intros Ha Hm. destruct (well_formed m) eqn:Hwf;
    [|by rewrite call_ill_formed].
  destruct m as [c id f|c id f|c id]; simpl in *;
    apply andb_prop in Hwf as [Hc Hid]; destruct c as [| | | |c| |]; try done.
  - rewrite heap_added by done. apply lookup_insert_ne.
    intros <-. apply elem_of_dom in Ha. by apply is_fresh in Ha.
  - rewrite heap_changed by done. simpl in Hm.
    destruct (slot st c (property_key id)) as [a'|]; [|done].
    apply lookup_alter_ne. congruence.
  - by rewrite heap_removed.
Qed.

Lemma calls_heap_frame ms st a :
  is_Some (heap st !! a) →
  changes_in_place a ms st = false →
  heap (state_of (calls ms st)) !! a = heap st !! a.
Proof.
  revert st. induction ms as [|m ms IH]; intros st Ha; simpl; [done|].
  intros [Hm Hms]%orb_false_elim. apply bool_decide_eq_false in Hm.
  pose proof (call_heap_frame m st a Ha Hm) as Hframe.
  destruct (call m st) as [st1|e st1]; simpl in *; [|done].
  rewrite IH, Hframe; [done| |done]. by rewrite Hframe.
Qed.

(** C5 as stated fails: the response lists the collector's own document
    objects, and [changed] updates a document in place.  A response taken
    after [added('widgets', '1', {color: 'red'})] reads [color: 'blue']
    once [changed('widgets', '1', {color: 'blue'})] has been called. *)
Lemma response_shows_later_changed :
  let st := state_of (added (Vstr "widgets") (Vstr "1")
                        {[ "color" := Vstr "red" ]} (new_collector None)) in
  let s := _generateResponse st in
  let st' := state_of (calls [Changed (Vstr "widgets") (Vstr "1")
                                {[ "color" := Vstr "blue" ]}] st) in
  read st s "widgets"
  = Some [ {[ "_id" := Vstr "1"; "color" := Vstr "red" ]} ]
  ∧ read st' s "widgets"
    = Some [ {[ "_id" := Vstr "1"; "color" := Vstr "blue" ]} ]
  ∧ read st' s "widgets" ≠ read st s "widgets".
Proof.
  intros st s st'.
  assert (read st s "widgets"
          = Some [ {[ "_id" := Vstr "1"; "color" := Vstr "red" ]} ]) as H1
    by (by vm_compute).
  assert (read st' s "widgets"
          = Some [ {[ "_id" := Vstr "1"; "color" := Vstr "blue" ]} ]) as H2
    by (by vm_compute).
  split; [done|]. split; [done|].
  rewrite H1, H2. intros Heq.
  apply (f_equal (λ r : option (list object),
                    match r with Some [m] => m !! "color" | _ => None end))
    in Heq.
  by vm_compute in Heq.
Qed.

(** C5, amended: a response is a value as far as its collections and the
    documents they list go, and it reads the same after any sequence of
    calls that changes none of the documents stored at the time in place:
    [added] and [removed] never do, and [changed] does only for the
    document stored at its id. *)
Theorem response_unchanged_unless_changed_in_place
    (st : collector) (ms : list mutation) :
  store_ok st →
  (∀ c k a, slot st c k = Some a → changes_in_place a ms st = false) →
  ∀ c, read (state_of (calls ms st)) (_generateResponse st) c
       = read st (_generateResponse st) c.
Proof.
  intros [Hdom _] Hquiet c. unfold read.
  destruct (_generateResponse st !! c) as [documents|] eqn:Hc; [|done].
  f_equal. apply map_ext_in. intros a Ha%list_elem_of_In.
  destruct (generateResponse_elem _ _ _ _ Hc Ha) as [k Hk].
  unfold fields_at. rewrite calls_heap_frame; eauto.
Qed.

Lemma response_unchanged_unless_changed_in_place_witness :
  let st := state_of (added (Vstr "widgets") (Vstr "1")
                        {[ "color" := Vstr "red" ]} (new_collector None)) in
  let ms := [ Added (Vstr "widgets") (Vstr "1") {[ "color" := Vstr "blue" ]};
              Changed (Vstr "widgets") (Vstr "1") {[ "color" := Vstr "green" ]};
              Removed (Vstr "widgets") (Vstr "1") ] in
  read (state_of (calls ms st)) (_generateResponse st) "widgets"
  = read st (_generateResponse st) "widgets".
Proof.
  intros st ms.
  apply (response_unchanged_unless_changed_in_place st ms).
  - apply (call_store_ok (Added (Vstr "widgets") (Vstr "1")
                            {[ "color" := Vstr "red" ]}) (new_collector None)).
    apply new_collector_store_ok.
  - intros c k a Hslot.
    assert (a = 0) as ->.
    { unfold st in Hslot. rewrite slot_added in Hslot by done.
      case_decide; [by injection Hslot as <-|].
      unfold slot in Hslot; simpl in Hslot. by rewrite lookup_empty in Hslot. }
    by vm_compute.
Defined.

(** ** Validation of what the handler returned *)

(** C8: a truthy value that is neither a cursor nor an array is refused
    with the "can only return a Cursor or an array of Cursors" error, and
    a falsy value is accepted; in both cases the collector is left as it
    was: no collection is ensured, no cursor is published, [ready] is not
    called. *)
Theorem non_cursor_result_is_rejected (res : handler_result) (st : collector) :
  (_isCursor res = false → isArray res = false → truthy_result res = true →
   _publishHandlerResult res st = Throw (Error not_a_cursor_message) st)
  ∧ (truthy_result res = false → _publishHandlerResult res st = Normal st).
Proof.
  split.
  - intros Hcur Harr Htruthy. destruct res as [v| |]; try done.
    unfold _publishHandlerResult; simpl in *. by rewrite Htruthy.
  - intros Hfalsy. destruct res as [v| |]; try done.
    unfold _publishHandlerResult; simpl in *. by rewrite Hfalsy.
Qed.

Lemma non_cursor_result_is_rejected_witness :
  _publishHandlerResult (HValue (Vobject 0)) (new_collector None)
  = Throw (Error not_a_cursor_message) (new_collector None)
  ∧ _publishHandlerResult (HValue Vundefined) (new_collector None)
    = Normal (new_collector None).
Proof.
  split.
  - apply (non_cursor_result_is_rejected (HValue (Vobject 0)) (new_collector None));
      reflexivity.
  - apply (non_cursor_result_is_rejected (HValue Vundefined) (new_collector None));
      reflexivity.
Defined.

Lemma areCursors_Forall elements :
  areCursors elements = true ↔ Forall (λ e, _isCursor e = true) elements.
Proof.
  unfold areCursors.
  assert (∀ b, foldl (λ valid cur, valid && _isCursor cur) b elements = true
               ↔ b = true ∧ Forall (λ e, _isCursor e = true) elements) as H.
  { induction elements as [|e elements IH]; intros b; simpl.
    - split; [by intros ->|by intros [-> _]].
    - rewrite IH, andb_true_iff, Forall_cons. tauto. }
  rewrite H. tauto.
Qed.





(** ** Ready, the delay, and what [collect] resolves with *)

(** The three calls leave the lifecycle of the collector alone. *)
Lemma call_lifecycle m st :
  delayInMs (state_of (call m st)) = delayInMs st
  ∧ ready_listener (state_of (call m st)) = ready_listener st
  ∧ timer (state_of (call m st)) = timer st
  ∧ resolved (state_of (call m st)) = resolved st.
Proof.
  destruct (well_formed m) eqn:Hwf; [|by rewrite call_ill_formed].
  destruct m as [c id f|c id f|c id]; simpl in *;
    apply andb_prop in Hwf as [Hc Hid]; destruct c as [| | | |c| |]; try done.
  - by rewrite added_returns.
  - rewrite changed_returns by done.
    by destruct (slot st c (property_key id)).
  - by rewrite removed_returns.
Qed.

Lemma calls_lifecycle ms st :
  delayInMs (state_of (calls ms st)) = delayInMs st
  ∧ ready_listener (state_of (calls ms st)) = ready_listener st
  ∧ timer (state_of (calls ms st)) = timer st
  ∧ resolved (state_of (calls ms st)) = resolved st.
Proof.
  revert st. induction ms as [|m ms IH]; intros st; simpl; [done|].
  destruct (call_lifecycle m st) as (H1 & H2 & H3 & H4).
  destruct (call m st) as [st1|e st1]; simpl in *; [|done].
  destruct (IH st1) as (H1' & H2' & H3' & H4'). repeat split; congruence.
Qed.

Lemma run_calls ms st : run (Call <$> ms) st = calls ms st.
Proof.
  revert st. induction ms as [|m ms IH]; intros st; simpl; [done|].
  destruct (call m st); simpl; [apply IH | done].
Qed.

Lemma run_app es1 es2 st :
  run (es1 ++ es2) st = and_then (run es1 st) (run es2).
Proof.
  revert st. induction es1 as [|e es1 IH]; intros st; simpl; [done|].
  destruct (step e st); simpl; [apply IH | done].
Qed.

Lemma store_ok_ext st st' :
  heap st = heap st' → _documents st = _documents st' →
  store_ok st → store_ok st'.
Proof. unfold store_ok, slot. intros -> ->. done. Qed.

Lemma ready_store st :
  heap (ready st) = heap st ∧ _documents (ready st) = _documents st.
Proof.
  unfold ready. by destruct (ready_listener st), (delay_configured st).
Qed.

Lemma timer_fires_store st :
  heap (timer_fires st) = heap st ∧ _documents (timer_fires st) = _documents st.
Proof. unfold timer_fires. by destruct (timer st). Qed.

(** With a delay, [ready()] only schedules the timer. *)
Lemma ready_with_delay st :
  ready_listener st = true → delay_configured st = true →
  ready st = set_listening false true st.
Proof. intros Hl Hd. unfold ready. by rewrite Hl, Hd. Qed.

(** When the timer fires, the promise is resolved with the response
    generated then. *)
Lemma timer_fires_resolves st :
  timer st = true → resolved st = None →
  resolved (timer_fires st) = Some (_generateResponse st).
Proof. intros Ht Hr. unfold timer_fires. rewrite Ht; simpl. by rewrite Hr. Qed.

(** With a delay, what is resolved is not the response of [ready()] time:
    a document added between [ready()] and the expiry is listed. *)
Lemma delayed_response_is_not_the_one_of_ready :
  let st := once_ready (new_collector (Some 100%Z)) in
  let st_ready := state_of (run [Ready] st) in
  let st_final :=
    state_of (run [Call (Added (Vstr "widgets") (Vstr "1")
                           {[ "color" := Vstr "red" ]});
                   TimerFires] st_ready) in
  _generateResponse st !! "widgets" = None
  ∧ resolved st_ready = None
  ∧ resolved st_final = Some {[ "widgets" := [0] ]}.
Proof. intros st st_ready st_final. repeat split; by vm_compute. Qed.

(** C9 as stated fails in its last part: the response the promise was
    resolved with lists the collector's own document objects, so a
    [changed] issued after the delay has expired shows in it. *)
Lemma delayed_response_shows_later_changed :
  let st := once_ready (new_collector (Some 100%Z)) in
  let st_expiry :=
    state_of (run [Call (Added (Vstr "widgets") (Vstr "1")
                           {[ "color" := Vstr "red" ]});
                   Ready; TimerFires] st) in
  let st_final :=
    state_of (run [Call (Changed (Vstr "widgets") (Vstr "1")
                           {[ "color" := Vstr "blue" ]})] st_expiry) in
  ∃ r, resolved st_expiry = Some r
       ∧ resolved st_final = Some r
       ∧ read st_expiry r "widgets"
         = Some [ {[ "_id" := Vstr "1"; "color" := Vstr "red" ]} ]
       ∧ read st_final r "widgets"
         = Some [ {[ "_id" := Vstr "1"; "color" := Vstr "blue" ]} ].
Proof.
  intros st st_expiry st_final. exists {[ "widgets" := [0] ]}.
  split; [by vm_compute|]. split; [by vm_compute|].
  split; by vm_compute.
Qed.

(** C9, amended: with a delay configured, [ready()] resolves nothing; when
    the delay expires the promise is resolved with the response generated
    from the collector as it is then, after the calls made between
    [ready()] and the expiry.  That response reads the same after any later
    calls that change none of the documents stored at the expiry in
    place; [added] and [removed] never do. *)
Theorem delayed_response_is_generated_at_expiry
    (st : collector) (before between after : list mutation) :
  store_ok st →
  delay_configured st = true →
  ready_listener st = true → resolved st = None →
  forallb well_formed before = true →
  forallb well_formed between = true →
  forallb well_formed after = true →
  ∃ st_ready st_expiry st_final,
    calls before st = Normal st_ready
    ∧ calls between (ready st_ready) = Normal st_expiry
    ∧ calls after (timer_fires st_expiry) = Normal st_final
    ∧ run ((Call <$> before) ++ [Ready] ++ (Call <$> between)
             ++ [TimerFires] ++ (Call <$> after)) st
      = Normal st_final
    ∧ resolved st_expiry = None
    ∧ resolved st_final = Some (_generateResponse st_expiry)
    ∧ ((∀ c k a, slot st_expiry c k = Some a →
                 changes_in_place a after (timer_fires st_expiry) = false) →
       ∀ c, read st_final (_generateResponse st_expiry) c
            = read st_expiry (_generateResponse st_expiry) c).
Proof.
  intros Hok Hdelay Hlistener Hresolved Hbefore Hbetween Hafter.
  destruct (calls_returns before st Hbefore) as [st_ready Hcalls1].
  destruct (calls_returns between (ready st_ready) Hbetween)
    as [st_expiry Hcalls2].
  destruct (calls_returns after (timer_fires st_expiry) Hafter)
    as [st_final Hcalls3].
  exists st_ready, st_expiry, st_final.
  pose proof (calls_lifecycle before st) as (Hd1 & Hl1 & Ht1 & Hr1).
  pose proof (calls_lifecycle between (ready st_ready)) as (Hd2 & Hl2 & Ht2 & Hr2).
  pose proof (calls_lifecycle after (timer_fires st_expiry)) as (_ & _ & _ & Hr3).
  rewrite Hcalls1 in Hd1, Hl1, Ht1, Hr1. rewrite Hcalls2 in Hd2, Hl2, Ht2, Hr2.
  rewrite Hcalls3 in Hr3. simpl in *.
  assert (ready st_ready = set_listening false true st_ready) as Hready.
  { apply ready_with_delay; [congruence|].
    unfold delay_configured in *. by rewrite Hd1. }
  rewrite Hready in Ht2, Hr2. simpl in Ht2, Hr2.
  assert (resolved st_expiry = None) as Hnone by congruence.
  split; [done|]. split; [done|]. split; [done|]. split.
  { rewrite run_app, run_calls, Hcalls1. simpl.
    rewrite run_app, run_calls, Hcalls2. simpl.
    by rewrite run_calls, Hcalls3. }
  split; [done|]. split.
  { rewrite Hr3. by apply timer_fires_resolves. }
  intros Hquiet c.
  destruct (timer_fires_store st_expiry) as [Hheap Hdocs].
  assert (store_ok st_expiry) as [Hdom _].
  { pose proof (calls_store_ok between (ready st_ready)) as H.
    rewrite Hcalls2 in H. apply H.
    destruct (ready_store st_ready) as [Hh Hd].
    apply (store_ok_ext st_ready); [done..|].
    pose proof (calls_store_ok before st Hok) as H'.
    by rewrite Hcalls1 in H'. }
  unfold read.
  destruct (_generateResponse st_expiry !! c) as [documents|] eqn:Hc; [|done].
  f_equal. apply map_ext_in. intros a Ha%list_elem_of_In.
  destruct (generateResponse_elem _ _ _ _ Hc Ha) as [k Hk].
  pose proof (calls_heap_frame after (timer_fires st_expiry) a) as Hframe.
  rewrite Hcalls3, Hheap in Hframe. simpl in Hframe.
  unfold fields_at. rewrite Hframe; eauto.
Qed.

Lemma once_ready_store_ok delay : store_ok (once_ready (new_collector delay)).
Proof.
  apply (store_ok_ext (new_collector delay)); [done..|].
  apply new_collector_store_ok.
Qed.

Lemma delayed_response_is_generated_at_expiry_witness :
  let st := once_ready (new_collector (Some 100%Z)) in
  let before := [ Added (Vstr "widgets") (Vstr "1") {[ "color" := Vstr "red" ]} ] in
  let between :=
    [ Added (Vstr "widgets") (Vstr "2") {[ "color" := Vstr "blue" ]};
      Changed (Vstr "widgets") (Vstr "1") {[ "color" := Vundefined ]} ] in
  let after := [ Removed (Vstr "widgets") (Vstr "1") ] in
  ∃ st_ready st_expiry st_final,
    calls before st = Normal st_ready
    ∧ calls between (ready st_ready) = Normal st_expiry
    ∧ calls after (timer_fires st_expiry) = Normal st_final
    ∧ run ((Call <$> before) ++ [Ready] ++ (Call <$> between)
             ++ [TimerFires] ++ (Call <$> after)) st
      = Normal st_final
    ∧ resolved st_expiry = None
    ∧ resolved st_final = Some (_generateResponse st_expiry)
    ∧ ((∀ c k a, slot st_expiry c k = Some a →
                 changes_in_place a after (timer_fires st_expiry) = false) →
       ∀ c, read st_final (_generateResponse st_expiry) c
            = read st_expiry (_generateResponse st_expiry) c).
Proof.
  intros st before between after.
  apply (delayed_response_is_generated_at_expiry st before between after);
    [apply once_ready_store_ok | reflexivity..].
Defined.

(** ** The collector against the fold *)

Lemma stored_documents_lookup st c k :
  stored_documents st c !! k = fields_at st <$> slot st c k.
Proof. unfold stored_documents. by rewrite lookup_fmap, slot_collection_of. Qed.

Lemma call_refines_fold m st c :
  store_ok st → well_formed m = true → keeps_id m = true →
  stored_documents (state_of (call m st)) c
  = Fold.apply c (stored_documents st c) m.
Proof.
  intros Hok Hwf Hkeeps. pose proof Hok as [Hdom Hinj].
  apply map_eq; intros k. rewrite stored_documents_lookup.
  destruct m as [c0 id f|c0 id f|c0 id]; simpl in *;
    apply andb_prop in Hwf as [Hc Hid]; destruct c0 as [| | | |c0| |];
    try done; simpl.
  - (* added *)
    rewrite slot_added by done. unfold fields_at. rewrite heap_added by done.
    assert (∀ a, slot st c k = Some a →
                 <[fresh (dom (heap st)) := <["_id" := id]> f]> (heap st) !! a
                 = heap st !! a) as Hold.
    { intros a Ha. apply lookup_insert_ne. intros <-.
      by apply (fresh_not_stored st c k). }
    destruct (decide (c0 = c)) as [->|Hne].
    + destruct (decide (k = property_key id)) as [->|Hk].
      * rewrite decide_True, lookup_insert_eq by done. simpl.
        by rewrite lookup_insert_eq.
      * rewrite decide_False, lookup_insert_ne by (first [intros [? ?]; congruence | congruence]).
        rewrite stored_documents_lookup.
        destruct (slot st c k) as [a|] eqn:Hs; simpl; [|done].
        unfold fields_at. by rewrite Hold.
    + rewrite decide_False by (first [intros [? ?]; congruence | congruence]).
      rewrite stored_documents_lookup.
      destruct (slot st c k) as [a|] eqn:Hs; simpl; [|done].
      unfold fields_at. by rewrite Hold.
  - (* changed *)
    apply bool_decide_eq_true in Hkeeps.
    rewrite slot_changed. unfold fields_at. rewrite heap_changed by done.
    assert ((if decide (c0 = c)
             then alter (Fold.merge_fields f) (property_key id)
                        (stored_documents st c)
             else stored_documents st c) !! k
            = if decide (c0 = c ∧ k = property_key id)
              then Fold.merge_fields f <$> stored_documents st c !! k
              else stored_documents st c !! k) as ->.
    { destruct (decide (c0 = c)) as [->|Hne].
      - destruct (decide (k = property_key id)) as [->|Hk].
        + by rewrite decide_True, lookup_alter_eq.
        + by rewrite decide_False, lookup_alter_ne by (first [intros [? ?]; congruence | congruence]).
      - by rewrite decide_False by (first [intros [? ?]; congruence | congruence]). }
    rewrite stored_documents_lookup.
    destruct (slot st c0 (property_key id)) as [a0|] eqn:Hs0.
    + destruct (slot st c k) as [a|] eqn:Hs; simpl.
      * destruct (decide (a = a0)) as [->|Ha].
        -- destruct (Hinj _ _ _ _ _ Hs Hs0) as [-> ->].
           rewrite decide_True, lookup_alter_eq by done.
           destruct (Hdom _ _ _ Hs0) as [d Hd]. rewrite Hd; simpl.
           unfold fields_at. rewrite Hd; simpl.
           by rewrite change_document_merge_fields.
        -- rewrite lookup_alter_ne by done.
           rewrite decide_False; [done|].
           intros [-> ->]. congruence.
      * by destruct (decide _).
    + destruct (decide _) as [[-> ->]|]; [|done].
      by rewrite Hs0.
  - (* removed *)
    rewrite slot_removed by done. unfold fields_at. rewrite heap_removed.
    destruct (decide (c0 = c)) as [->|Hne].
    + destruct (decide (k = property_key id)) as [->|Hk].
      * by rewrite decide_True, lookup_delete_eq.
      * rewrite decide_False, lookup_delete_ne by (first [intros [? ?]; congruence | congruence]).
        by rewrite stored_documents_lookup.
    + rewrite decide_False by (first [intros [? ?]; congruence | congruence]).
      by rewrite stored_documents_lookup.
Qed.

Lemma calls_refine_fold ms st c :
  store_ok st →
  forallb well_formed ms = true → forallb keeps_id ms = true →
  ∃ st', calls ms st = Normal st'
         ∧ stored_documents st' c
           = foldl (Fold.apply c) (stored_documents st c) ms.
Proof.
  revert st. induction ms as [|m ms IH]; intros st Hok; simpl; [eauto|].
  intros [Hm Hms]%andb_prop [Hk Hks]%andb_prop.
  pose proof (call_refines_fold m st c Hok Hm Hk) as Hstep.
  pose proof (call_store_ok m st Hok) as Hok'.
  destruct (call_returns m st Hm) as [st1 Hcall].
  rewrite Hcall in *. simpl in *. rewrite <- Hstep. by apply IH.
Qed.

Lemma documents_of_generateResponse st c :
  documents_of st (_generateResponse st) c
  = fields_at st <$> Underscore.values (collection_of c st).
Proof.
  unfold documents_of, read, _generateResponse, collection_of.
  rewrite lookup_fmap. by destruct (_documents st !! c).
Qed.

Lemma documents_of_stored_documents st c :
  documents_of st (_generateResponse st) c
  ≡ₚ (map_to_list (stored_documents st c)).*2.
Proof.
  rewrite documents_of_generateResponse.
  unfold stored_documents, Underscore.values.
  rewrite map_to_list_fmap, <- !list_fmap_compose.
  induction (map_to_list (collection_of c st)) as [|[k a] l IH]; simpl;
    [done | by f_equiv].
Qed.

(** The response of the collector lists, for every collection, the
    documents of the fold of the calls, provided no [changed] payload
    binds [_id] to [undefined]. *)
Lemma response_refines_fold delay ms :
  forallb well_formed ms = true → forallb keeps_id ms = true →
  ∃ st', calls ms (new_collector delay) = Normal st'
         ∧ ∀ c, documents_of st' (_generateResponse st') c
                ≡ₚ (map_to_list (Fold.fold c ms)).*2.
Proof.
  intros Hwf Hkeeps.
  destruct (calls_returns ms (new_collector delay) Hwf) as [st' Hcalls].
  exists st'. split; [done|]. intros c.
  destruct (calls_refine_fold ms (new_collector delay) c
              (new_collector_store_ok delay) Hwf Hkeeps) as (st'' & Hcalls' & Heq).
  rewrite Hcalls in Hcalls'. injection Hcalls' as <-.
  rewrite documents_of_stored_documents, Heq. unfold Fold.fold.
  by replace (stored_documents (new_collector delay) c)
    with (∅ : gmap string object).
Qed.

(** C1: the collector and the fold part on a [changed] whose payload
    binds [_id] to [undefined].  The fold never alters the id key, so the
    document keeps [_id = '1']; the collector deletes it (see
    [change_document_undefined_id]), so the response lists a document
    without [_id].  For every other sequence of calls the two
    agree, see [response_refines_fold]. *)
Theorem response_differs_from_fold_on_undefined_id :
  let ms := [ Added (Vstr "widgets") (Vstr "1") {[ "color" := Vstr "red" ]};
              Changed (Vstr "widgets") (Vstr "1") {[ "_id" := Vundefined ]} ] in
  ∃ st', calls ms (new_collector None) = Normal st'
         ∧ documents_of st' (_generateResponse st') "widgets"
           = [ {[ "color" := Vstr "red" ]} ]
         ∧ (map_to_list (Fold.fold "widgets" ms)).*2
           = [ {[ "_id" := Vstr "1"; "color" := Vstr "red" ]} ]
         ∧ ¬ (documents_of st' (_generateResponse st') "widgets"
              ≡ₚ (map_to_list (Fold.fold "widgets" ms)).*2).
Proof.
  intros ms. exists (state_of (calls ms (new_collector None))).
  assert (documents_of (state_of (calls ms (new_collector None)))
            (_generateResponse (state_of (calls ms (new_collector None))))
            "widgets" = [ {[ "color" := Vstr "red" ]} ]) as H1 by (by vm_compute).
  assert ((map_to_list (Fold.fold "widgets" ms)).*2
          = [ {[ "_id" := Vstr "1"; "color" := Vstr "red" ]} ]) as H2
    by (by vm_compute).
  split; [by vm_compute|]. split; [done|]. split; [done|].
  rewrite H1, H2. intros Heq%Permutation_length_1.
  apply (f_equal (λ m : object, m !! "_id")) in Heq. by vm_compute in Heq.
Qed.

(** * Further properties of the collector *)

(** ** The three calls *)

(** X1: a call throws exactly when its collection is not a string or its
    id is neither a string nor an ObjectID; it then throws the error of
    [check] before it has touched the collector.  With arguments that pass
    the checks a call always returns. *)
Theorem call_throws_iff_ill_formed (m : mutation) (st : collector) :
  (well_formed m = false ∧ call m st = Throw MatchError st)
  ∨ (well_formed m = true ∧ ∃ st', call m st = Normal st').
Proof.
  destruct (well_formed m) eqn:Hwf.
  - right. split; [done|]. by apply call_returns.
  - left. split; [done|].
    destruct m as [c id f|c id f|c id]; simpl in *;
      unfold added, changed, removed, check;
      destruct (String_pattern c); simpl in *; try done;
      destruct (validMongoId id); simpl in *; done.
Qed.



(** X3: [changed] on a stored document returns and updates that object in
    place, key by key: a key the payload binds to [undefined] is deleted
    ([_id] included), another key of the payload other than [_id] takes the
    payload's value, and every other key keeps its value.  The document
    map and the other objects of the store are untouched. *)
Theorem changed_stored_document (c : string) (id : value) (fields : object)
    (st : collector) (a : address) :
  validMongoId id = true →
  slot st c (property_key id) = Some a →
  is_Some (heap st !! a) →
  ∃ st', changed (Vstr c) id fields st = Normal st'
         ∧ _documents st' = _documents st
         ∧ (∀ k, fields_at st' a !! k
                 = match fields !! k with
                   | Some Vundefined => None
                   | Some v => if decide (k = "_id") then fields_at st a !! k
                               else Some v
                   | None => fields_at st a !! k
                   end)
         ∧ ∀ a', a' ≠ a → heap st' !! a' = heap st !! a'.
Proof.
  intros Hid Hslot [d Hd]. rewrite changed_returns, Hslot by done.
  eexists. split; [done|]. split; [|split].
  - simpl. unfold slot in Hslot.
    destruct (_documents st !! c) as [documents|] eqn:Hc; [|done].
    simpl. by apply insert_id.
  - intros k. unfold fields_at; simpl.
    rewrite lookup_alter_eq, Hd; simpl. apply change_document_lookup.
  - intros a' Ha'. simpl. by apply lookup_alter_ne.
Qed.

Lemma changed_stored_document_witness :
  let st := state_of (added (Vstr "widgets") (Vstr "1")
                        {[ "color" := Vstr "red"; "size" := Vnum 3 ]}
                        (new_collector None)) in
  ∃ st', changed (Vstr "widgets") (Vstr "1")
                 {[ "color" := Vundefined; "size" := Vnum 4 ]} st = Normal st'
         ∧ _documents st' = _documents st
         ∧ (∀ k, fields_at st' 0 !! k
                 = match ({[ "color" := Vundefined; "size" := Vnum 4 ]} : object)
                         !! k with
                   | Some Vundefined => None
                   | Some v => if decide (k = "_id") then fields_at st 0 !! k
                               else Some v
                   | None => fields_at st 0 !! k
                   end)
         ∧ ∀ a', a' ≠ 0 → heap st' !! a' = heap st !! a'.
Proof.
  intros st.
  apply (changed_stored_document "widgets" (Vstr "1")
           {[ "color" := Vundefined; "size" := Vnum 4 ]} st 0);
    [reflexivity | by vm_compute | exists (fields_at st 0); by vm_compute].
Defined.

(** X4: [removed] returns and deletes the address stored at the id and
    nothing else; the objects of the store are untouched, and the
    collection stays in the document map exactly when another of its
    documents is left. *)
Theorem removed_stored_documents (c : string) (id : value) (st : collector) :
  validMongoId id = true →
  ∃ st', removed (Vstr c) id st = Normal st'
         ∧ heap st' = heap st
         ∧ (∀ c' k, slot st' c' k
                    = if decide (c' = c ∧ k = property_key id)
                      then None else slot st c' k)
         ∧ (is_Some (_documents st' !! c)
            ↔ ∃ k a, k ≠ property_key id ∧ slot st c k = Some a).
Proof.
  intros Hid.
  pose proof (λ c' k, slot_removed c id st c' k Hid) as Hslot.
  pose proof (heap_removed (Vstr c) id st) as Hheap.
  rewrite removed_returns in * by done. simpl state_of in *.
  eexists. split; [done|]. split; [done|]. split; [done|].
  simpl. destruct (decide (delete (property_key id) (collection_of c st) = ∅))
    as [Hempty|Hne].
  - rewrite bool_decide_eq_true_2, lookup_delete_eq by done. split.
    + by intros [? ?].
    + intros (k & a & Hk & Hs). rewrite <- slot_collection_of in Hs.
      rewrite <- (lookup_delete_ne _ (property_key id)) in Hs by done.
      by rewrite Hempty, lookup_empty in Hs.
  - rewrite bool_decide_eq_false_2, lookup_insert_eq by done. split; [|eauto].
    intros _. apply map_choose in Hne as (k & a & Hka).
    exists k, a. apply lookup_delete_Some in Hka as [Hk Hka].
    split; [done|]. by rewrite <- slot_collection_of.
Qed.

Lemma removed_stored_documents_witness :
  let st := state_of (calls [ Added (Vstr "widgets") (Vstr "1") ∅;
                              Added (Vstr "widgets") (Vstr "2") ∅ ]
                        (new_collector None)) in
  ∃ st', removed (Vstr "widgets") (Vstr "1") st = Normal st'
         ∧ heap st' = heap st
         ∧ (∀ c' k, slot st' c' k
                    = if decide (c' = "widgets" ∧ k = "1")
                      then None else slot st c' k)
         ∧ (is_Some (_documents st' !! "widgets")
            ↔ ∃ k a, k ≠ "1" ∧ slot st "widgets" k = Some a).
Proof.
  intros st.
  apply (removed_stored_documents "widgets" (Vstr "1") st). reflexivity.
Defined.

(** X5: [added] of a document at an id where none is stored, followed by
    [removed] of that id, gives back the document map there was before,
    provided the collection was not present and empty. *)
Theorem added_then_removed_restores_documents (c : string) (id : value)
    (fields : object) (st : collector) :
  validMongoId id = true →
  slot st c (property_key id) = None →
  _documents st !! c ≠ Some ∅ →
  ∃ st1 st2, added (Vstr c) id fields st = Normal st1
             ∧ removed (Vstr c) id st1 = Normal st2
             ∧ _documents st2 = _documents st.
Proof.
  intros Hid Hslot Hne. rewrite added_returns by done.
  eexists _, _. split; [done|]. rewrite removed_returns by done.
  split; [done|]. simpl.
  rewrite collection_of_insert, delete_insert_eq, slot_None_delete by done.
  unfold collection_of.
  destruct (_documents st !! c) as [documents|] eqn:Hc; simpl.
  - rewrite bool_decide_eq_false_2 by congruence.
    rewrite insert_insert_eq. by apply insert_id.
  - rewrite bool_decide_eq_true_2 by done.
    rewrite delete_insert_eq. by apply delete_id.
Qed.

Lemma added_then_removed_restores_documents_witness :
  let st := state_of (added (Vstr "widgets") (Vstr "1") ∅ (new_collector None)) in
  ∃ st1 st2, added (Vstr "widgets") (Vstr "2") {[ "color" := Vstr "red" ]} st
             = Normal st1
             ∧ removed (Vstr "widgets") (Vstr "2") st1 = Normal st2
             ∧ _documents st2 = _documents st.
Proof.
  intros st.
  apply (added_then_removed_restores_documents "widgets" (Vstr "2")
           {[ "color" := Vstr "red" ]} st);
    [reflexivity | by vm_compute | by vm_compute].
Defined.

(** A well-formed call leaves the collections it is not about in the
    document map as they are. *)
Lemma call_other_documents m st c' :
  well_formed m = true → collection_name m ≠ c' →
  _documents (state_of (call m st)) !! c' = _documents st !! c'.
Proof.
  intros Hwf Hc'.
  destruct m as [c id f|c id f|c id]; simpl in *;
    apply andb_prop in Hwf as [Hc Hid]; destruct c as [| | | |c| |];
    try done; simpl in *.
  - rewrite added_returns by done. simpl. by rewrite lookup_insert_ne.
  - rewrite changed_returns by done.
    destruct (slot st c (property_key id)); simpl; by rewrite lookup_insert_ne.
  - rewrite removed_returns by done. simpl.
    case_bool_decide; [by rewrite lookup_delete_ne | by rewrite lookup_insert_ne].
Qed.

(** X6: a call with well-formed arguments about one collection changes
    nothing that the response shows for another collection: the same
    documents are listed, and they read the same. *)
Theorem call_leaves_other_collections (m : mutation) (st : collector)
    (c' : string) :
  store_ok st → well_formed m = true → collection_name m ≠ c' →
  read (state_of (call m st)) (_generateResponse (state_of (call m st))) c'
  = read st (_generateResponse st) c'.
Proof.
  intros Hok Hwf Hc'. pose proof Hok as [Hdom Hinj].
  pose proof (call_other_documents m st c' Hwf Hc') as Hdocs.
  unfold read, _generateResponse. rewrite !lookup_fmap, Hdocs.
  destruct (_documents st !! c') as [documents|] eqn:Hd; simpl; [|done].
  f_equal. apply map_ext_in. intros a Ha%list_elem_of_In.
  apply elem_of_values in Ha as [k Hk].
  assert (slot st c' k = Some a) as Hslot by (unfold slot; by rewrite Hd).
  unfold fields_at. rewrite call_heap_frame; [done|by eapply Hdom|].
  destruct m as [c id f|c id f|c id]; simpl in *; try done.
  intros Hs. by destruct (Hinj _ _ _ _ _ Hs Hslot).
Qed.

Lemma call_leaves_other_collections_witness :
  let st := state_of (calls [ Added (Vstr "widgets") (Vstr "1") ∅;
                              Added (Vstr "gadgets") (Vstr "1") ∅ ]
                        (new_collector None)) in
  let m := Changed (Vstr "gadgets") (Vstr "1") {[ "color" := Vstr "red" ]} in
  read (state_of (call m st)) (_generateResponse (state_of (call m st)))
       "widgets"
  = read st (_generateResponse st) "widgets".
Proof.
  intros st m. apply (call_leaves_other_collections m st "widgets").
  - apply calls_store_ok, new_collector_store_ok.
  - reflexivity.
  - by vm_compute.
Defined.

(** ** The response *)

(** X7: the response has a key for exactly the collections of the
    document map, empty ones included, and under each key it lists the
    addresses stored for the collection: as many as there are ids, each
    stored address and no other, and none twice when no object is stored
    at two ids. *)
Theorem response_lists_stored_documents (st : collector) :
  dom (_generateResponse st) = dom (_documents st)
  ∧ ∀ c documents,
      _generateResponse st !! c = Some documents →
      length documents = size (collection_of c st)
      ∧ (∀ a, a ∈ documents ↔ ∃ k, slot st c k = Some a)
      ∧ (store_ok st → NoDup documents).
Proof.
  split; [apply dom_fmap_L|].
  intros c documents. unfold _generateResponse, collection_of, slot.
  rewrite lookup_fmap.
  destruct (_documents st !! c) as [d|] eqn:Hd; simpl; [|done].
  intros [= <-]. split; [|split].
  - unfold Underscore.values. by rewrite length_fmap, length_map_to_list.
  - intros a. apply elem_of_values.
  - intros [_ Hinj]. unfold Underscore.values.
    apply NoDup_fmap_2_strong; [|apply NoDup_map_to_list].
    intros [k1 a1] [k2 a2] H1%elem_of_map_to_list H2%elem_of_map_to_list.
    simpl. intros <-.
    destruct (Hinj c k1 c k2 a1) as [_ ->]; [unfold slot; by rewrite Hd..|done].
Qed.

(** ** Cursors *)

Lemma areCursors_cursors (cursors : list cursor) :
  areCursors (HCursor <$> cursors) = true.
Proof.
  apply areCursors_Forall, Forall_fmap, Forall_forall. by intros cur _.
Qed.

Lemma collect_cursors_distinct seen pushed (cursors : list cursor) :
  NoDup (_getCollectionName <$> cursors) →
  (∀ cur, cur ∈ cursors → _getCollectionName cur ∉ seen) →
  collect_cursors seen pushed (HCursor <$> cursors)
  = inr (pushed ++ cursors)%list.
Proof.
  revert seen pushed.
  induction cursors as [|cur cursors IH]; intros seen pushed Hnodup Hseen.
  { simpl. by rewrite app_nil_r. }
  rewrite fmap_cons in Hnodup. apply NoDup_cons in Hnodup as [Hcur Hnodup].
  simpl. rewrite decide_False by (apply Hseen; by left).
  rewrite IH, <- app_assoc; [done..|].
  intros cur' Hin [Heq%elem_of_singleton|Hin']%elem_of_union.
  - apply Hcur, list_elem_of_fmap. by exists cur'.
  - apply (Hseen cur'); [by right|done].
Qed.

Lemma distinct_cursors_classified (cursors : list cursor) :
  NoDup (_getCollectionName <$> cursors) →
  classify_result (HArray (HCursor <$> cursors)) = inr cursors.
Proof.
  intros Hnodup. unfold classify_result. rewrite areCursors_cursors. simpl.
  rewrite (collect_cursors_distinct ∅ [] cursors); [done..|set_solver].
Qed.

Lemma distinct_cursors_published (cursors : list cursor) (st : collector) :
  NoDup (_getCollectionName <$> cursors) →
  _publishHandlerResult (HArray (HCursor <$> cursors)) st
  = and_then (publish_cursors cursors st) (λ st, Normal (ready st)).
Proof.
  intros Hnodup. unfold _publishHandlerResult.
  rewrite (distinct_cursors_classified _ Hnodup). simpl. by rewrite orb_true_r.
Qed.

(** X8: a single cursor is handled as the array that holds just it. *)
Theorem single_cursor_is_singleton_array (cur : cursor) (st : collector) :
  _publishHandlerResult (HCursor cur) st
  = _publishHandlerResult (HArray [HCursor cur]) st.
Proof.
  unfold _publishHandlerResult, classify_result, areCursors. simpl.
  by rewrite decide_False by set_solver.
Qed.



Lemma publish_cursors_app cursors1 cursors2 st :
  publish_cursors (cursors1 ++ cursors2) st
  = and_then (publish_cursors cursors1 st) (publish_cursors cursors2).
Proof.
  revert st. induction cursors1 as [|cur cursors1 IH]; intros st; simpl; [done|].
  destruct (_publishCursor cur _); simpl; [apply IH | done].
Qed.

(** X10: when a cursor of the array throws while it publishes, the
    exception leaves [_publishHandlerResult] with the collector as it was
    at that moment: the cursors before it have published, its own
    collection has been ensured, the cursors after it are not asked to
    publish, and [ready()] is not called. *)
Theorem cursor_exception_ends_publishing
    (before after : list cursor) (cur : cursor) (e : error)
    (st st1 st2 : collector) :
  NoDup (_getCollectionName <$> (before ++ cur :: after)%list) →
  publish_cursors before st = Normal st1 →
  _publishCursor cur
    (note_published (_getCollectionName cur)
       (_ensureCollectionInRes (_getCollectionName cur) st1))
  = Throw e st2 →
  _publishHandlerResult (HArray (HCursor <$> (before ++ cur :: after)%list)) st
  = Throw e st2.
Proof.
  intros Hnodup Hbefore Hcur.
  rewrite distinct_cursors_published by done.
  rewrite publish_cursors_app, Hbefore. simpl. by rewrite Hcur.
Qed.

Lemma cursor_exception_ends_publishing_witness :
  let st := new_collector None in
  let st1 := note_published "widgets" (_ensureCollectionInRes "widgets" st) in
  let st2 := note_published "gadgets" (_ensureCollectionInRes "gadgets" st1) in
  _publishHandlerResult
    (HArray (HCursor <$> ([Cursor "widgets" Normal]
                          ++ Cursor "gadgets" (Throw TypeError)
                          :: [Cursor "gizmos" Normal])%list)) st
  = Throw TypeError st2.
Proof.
  intros st st1 st2.
  apply (cursor_exception_ends_publishing
           [Cursor "widgets" Normal] [Cursor "gizmos" Normal]
           (Cursor "gadgets" (Throw TypeError)) TypeError st st1 st2).
  - simpl. repeat constructor; set_solver.
  - reflexivity.
  - reflexivity.
Defined.

Lemma ensure_dom c st :
  dom (_documents (_ensureCollectionInRes c st)) = {[c]} ∪ dom (_documents st).
Proof. simpl. apply dom_insert_L. Qed.






(** ** The lifecycle *)









(** X15: the promise is not resolved before [ready()] has been called,
    and with a delay configured it is not resolved before the timer has
    expired, whatever else happens. *)
Theorem not_resolved_before_ready_and_expiry (es : list event)
    (st : collector) :
  resolved st = None →
  (timer st = false ∧ Ready ∉ es)
  ∨ (delay_configured st = true ∧ TimerFires ∉ es) →
  resolved (state_of (run es st)) = None.
Proof.
  intros Hr [[Ht Hes]|[Hd Hes]].
  - revert st Hr Ht. induction es as [|e es IH]; intros st Hr Ht; simpl; [done|].
    apply not_elem_of_cons in Hes as [He Hes].
    destruct e as [m| |]; simpl; [|done|].
    + destruct (call_lifecycle m st) as (_ & _ & Ht' & Hr').
      destruct (call m st) as [st1|err st1]; simpl in *; [|congruence].
      apply IH; congruence.
    + unfold timer_fires. rewrite Ht. by apply IH.
  - revert st Hr Hd. induction es as [|e es IH]; intros st Hr Hd; simpl; [done|].
    apply not_elem_of_cons in Hes as [He Hes].
    destruct e as [m| |]; simpl; [| |done].
    + destruct (call_lifecycle m st) as (Hd' & _ & _ & Hr').
      destruct (call m st) as [st1|err st1]; simpl in *; [|congruence].
      apply IH; [done|congruence|].
      unfold delay_configured in *. by rewrite Hd'.
    + unfold ready. rewrite Hd.
      destruct (ready_listener st); by apply IH.
Qed.

Lemma not_resolved_before_ready_and_expiry_witness :
  resolved (state_of (run [Call (Added (Vstr "widgets") (Vstr "1") ∅);
                           Ready; Ready]
                        (once_ready (new_collector (Some 100%Z))))) = None
  ∧ resolved (state_of (run [Call (Added (Vstr "widgets") (Vstr "1") ∅);
                             TimerFires]
                          (once_ready (new_collector None)))) = None.
Proof.
  split.
  - apply (not_resolved_before_ready_and_expiry
             [Call (Added (Vstr "widgets") (Vstr "1") ∅); Ready; Ready]
             (once_ready (new_collector (Some 100%Z)))); [reflexivity|].
    right. split; [reflexivity|].
    intros H. repeat (apply elem_of_cons in H as [H|H]; [discriminate H|]).
    by apply elem_of_nil in H.
  - apply (not_resolved_before_ready_and_expiry
             [Call (Added (Vstr "widgets") (Vstr "1") ∅); TimerFires]
             (once_ready (new_collector None))); [reflexivity|].
    left. split; [reflexivity|].
    intros H. repeat (apply elem_of_cons in H as [H|H]; [discriminate H|]).
    by apply elem_of_nil in H.
Defined.

(** ** [collect] *)

(** X16: [collect] for a name that has no publish handler throws, with the
    message that names the publication; no promise is made and the
    collector is not touched (no listener is registered). *)
Theorem collect_unknown_publication
    (publish_handlers : gmap string publish_handler) (name : string)
    (args : list argument) (st : collector) :
  publish_handlers !! name = None →
  collect publish_handlers name args st
  = CollectThrows (Error (unknown_publication_message name)) st.
Proof.
  intros Hname. unfold collect. destruct (take_callback args). by rewrite Hname.
Qed.

Lemma collect_unknown_publication_witness :
  collect ∅ "widgets.all" [AValue (Vnum 1)] (new_collector None)
  = CollectThrows (Error (unknown_publication_message "widgets.all"))
                  (new_collector None).
Proof.
  apply (collect_unknown_publication ∅ "widgets.all" [AValue (Vnum 1)]
           (new_collector None)).
  apply lookup_empty.
Defined.

Lemma take_callback_function args f :
  take_callback (args ++ [AFunction f]) = (Some f, args).
Proof. unfold take_callback. by rewrite last_snoc, removelast_last. Qed.

(** X17: a function given as the last argument of [collect] is taken as
    the callback and is not passed to the handler, which sees the
    arguments before it; only one function is taken, and a last argument
    that is not a function stays an argument. *)
Theorem collect_takes_the_callback
    (publish_handlers : gmap string publish_handler) (name : string)
    (handler : publish_handler) (args : list argument) (f : nat) (v : value)
    (st : collector) :
  publish_handlers !! name = Some handler →
  collect publish_handlers name (args ++ [AFunction f]) st
  = match executor handler args st with
    | Normal st' => CollectReturns (Some f) None st'
    | Throw e st' => CollectReturns (Some f) (Some e) st'
    end
  ∧ collect publish_handlers name (args ++ [AValue v]) st
    = match executor handler (args ++ [AValue v]) st with
      | Normal st' => CollectReturns None None st'
      | Throw e st' => CollectReturns None (Some e) st'
      end.
Proof.
  intros Hname. unfold collect. rewrite take_callback_function, Hname.
  split; [done|]. unfold take_callback. by rewrite last_snoc.
Qed.

Lemma collect_takes_the_callback_witness :
  let handler : publish_handler :=
    λ args st, HandlerReturns (HValue (Vnum (Z.of_nat (length args)))) st in
  collect {[ "widgets.all" := handler ]} "widgets.all"
          ([AValue (Vnum 1); AFunction 7] ++ [AFunction 8]) (new_collector None)
  = match executor handler [AValue (Vnum 1); AFunction 7] (new_collector None) with
    | Normal st' => CollectReturns (Some 8) None st'
    | Throw e st' => CollectReturns (Some 8) (Some e) st'
    end
  ∧ collect {[ "widgets.all" := handler ]} "widgets.all"
            ([AValue (Vnum 1); AFunction 7] ++ [AValue Vnull]) (new_collector None)
    = match executor handler ([AValue (Vnum 1); AFunction 7] ++ [AValue Vnull])
              (new_collector None) with
      | Normal st' => CollectReturns None None st'
      | Throw e st' => CollectReturns None (Some e) st'
      end.
Proof.
  intros handler.
  apply (collect_takes_the_callback {[ "widgets.all" := handler ]}
           "widgets.all" handler [AValue (Vnum 1); AFunction 7] 8 Vnull
           (new_collector None)).
  apply lookup_singleton_eq.
Defined.

(** X18: an exception of the handler, and a handler result that is truthy
    but neither a cursor nor an array, do not make [collect] throw: the
    promise is rejected with the error (unless the handler had it resolved
    already), and the collector stays as the handler left it, so 'stop' is
    not emitted. *)
Theorem collect_rejects
    (publish_handlers : gmap string publish_handler) (name : string)
    (handler : publish_handler) (args : list argument) (st st1 : collector) :
  publish_handlers !! name = Some handler →
  (∀ e, handler (take_callback args).2 (once_ready st) = HandlerThrows e st1 →
        collect publish_handlers name args st
        = CollectReturns (take_callback args).1 (Some e) st1
        ∧ (resolved st1 = None →
           promise_of (collect publish_handlers name args st)
           = Some (Rejected e)))
  ∧ (∀ res, handler (take_callback args).2 (once_ready st)
            = HandlerReturns res st1 →
            _isCursor res = false → isArray res = false →
            truthy_result res = true →
            collect publish_handlers name args st
            = CollectReturns (take_callback args).1
                             (Some (Error not_a_cursor_message)) st1
            ∧ (resolved st1 = None →
               promise_of (collect publish_handlers name args st)
               = Some (Rejected (Error not_a_cursor_message)))).
Proof.
  intros Hname. unfold collect, executor.
  destruct (take_callback args) as [callback args']. simpl. rewrite Hname.
  split.
  - intros e ->. split; [done|]. simpl. by intros ->.
  - intros res -> Hcur Harr Htruthy.
    destruct res as [v| |]; try done. simpl in Htruthy.
    unfold _publishHandlerResult. simpl. rewrite Htruthy.
    split; [done|]. simpl. by intros ->.
Qed.

Lemma collect_rejects_witness :
  let handler := scripted_handler [Call (Added (Vstr "widgets") Vnull ∅)]
                                  (HValue Vundefined) in
  collect {[ "widgets.all" := handler ]} "widgets.all" [] (new_collector None)
  = CollectReturns None (Some MatchError) (once_ready (new_collector None))
  ∧ promise_of (collect {[ "widgets.all" := handler ]} "widgets.all" []
                        (new_collector None))
    = Some (Rejected MatchError).
Proof.
  intros handler.
  destruct (collect_rejects {[ "widgets.all" := handler ]} "widgets.all" handler
              [] (new_collector None) (once_ready (new_collector None)))
    as [Hthrows _]; [apply lookup_singleton_eq|].
  destruct (Hthrows MatchError) as [Hcollect Hpromise]; [reflexivity|].
  split; [exact Hcollect | apply Hpromise; reflexivity].
Defined.




(** X20: whatever calls, [ready()]s and timer expiries happen, every
    address of the document map refers to an object of the store and no
    object is stored under two ids or in two collections: each [added]
    makes an object of its own. *)
Theorem store_stays_ok (es : list event) (st : collector) :
  store_ok st → store_ok (state_of (run es st)).
Proof.
  revert st. induction es as [|e es IH]; intros st Hok; simpl; [done|].
  assert (store_ok (state_of (step e st))) as Hstep.
  { destruct e as [m| |]; simpl.
    - by apply call_store_ok.
    - destruct (ready_store st) as [Hh Hd]. by apply (store_ok_ext st).
    - destruct (timer_fires_store st) as [Hh Hd]. by apply (store_ok_ext st). }
  destruct (step e st) as [st1|err st1]; simpl in *; [by apply IH | done].
Qed.

Lemma store_stays_ok_witness :
  store_ok (state_of (run [ Call (Added (Vstr "widgets") (Vstr "1") ∅);
                            Call (Added (Vstr "widgets") (Vstr "1") ∅);
                            Ready;
                            Call (Removed (Vstr "widgets") (Vstr "1")) ]
                        (once_ready (new_collector None)))).
Proof.
  apply (store_stays_ok
           [ Call (Added (Vstr "widgets") (Vstr "1") ∅);
             Call (Added (Vstr "widgets") (Vstr "1") ∅);
             Ready;
             Call (Removed (Vstr "widgets") (Vstr "1")) ]
           (once_ready (new_collector None))).
  apply once_ready_store_ok.
Defined.
